(** * The sale transaction processor of the coffee-shop backend

    A shallow embedding of [database/migrations/007_create_process_sale_function.sql]
    (the PL/pgSQL function [process_sale]), of the tables it works on
    (migrations 002, 004, 005, 006), of the catalog service
    ([products.service.ts]), of the request schema ([sales.schema.ts]) and of
    the service and middleware that sit in front of it ([sales.service.ts],
    [validate.middleware.ts], [AppError.ts]).

    Tables with a primary key are finite maps from the key to the row.
    Money is [DECIMAL(10, 2)]: an integer number of hundredths, at most ten
    digits.  A statement that violates a constraint raises an [sql_error];
    the [EXCEPTION WHEN OTHERS] handler of [process_sale] turns it into a
    result and the block's effects are undone. *)

From Stdlib Require Import ZArith QArith String Ascii List Lia.
From stdpp Require Import base option list gmap sets strings pretty sorting.

Local Open Scope string_scope.
Local Open Scope Z_scope.

(** ** Values of the store *)

(** A [UUID] is a 128-bit number. *)
Definition uuid := N.
Bind Scope N_scope with uuid.
(** [TIMESTAMP WITH TIME ZONE], as a number of ticks. *)
Definition timestamp := Z.

Module Pg.

Definition hex_digit (d : N) : ascii :=
  match d with
  | 0%N => "0" | 1%N => "1" | 2%N => "2" | 3%N => "3"
  | 4%N => "4" | 5%N => "5" | 6%N => "6" | 7%N => "7"
  | 8%N => "8" | 9%N => "9" | 10%N => "a" | 11%N => "b"
  | 12%N => "c" | 13%N => "d" | 14%N => "e" | _ => "f"
  end%char.

Fixpoint hex_digits (n : nat) (v : N) (acc : string) : string :=
  match n with
  | O => acc
  | S n' => hex_digits n' (v / 16)%N (String (hex_digit (v mod 16)%N) acc)
  end.

(** The text form of a UUID, as [||] produces it: 8-4-4-4-12 lower-case
    hexadecimal digits. *)
Definition uuid_out (u : uuid) : string :=
  let h := hex_digits 32 u "" in
  substring 0 8 h +:+ "-" +:+ substring 8 4 h +:+ "-" +:+
  substring 12 4 h +:+ "-" +:+ substring 16 4 h +:+ "-" +:+
  substring 20 12 h.

(** [uuid_generate_v4()] as the default of a primary key: a key that the
    table does not hold yet. *)
Definition uuid_generate_v4 {A} (table : gmap uuid A) : uuid :=
  fresh (dom table).

(** What a failing statement raises. *)
Inductive sql_error :=
| string_data_right_truncation (n : nat)
| numeric_value_out_of_range
| integer_out_of_range
| check_violation (rel constr : string)
| not_null_violation (rel col : string)
| unique_violation (constr : string)
| foreign_key_violation (rel constr : string).

Definition dq : string := String (Ascii false true false false false true false false) "".

(** [SQLERRM] *)
Definition sqlerrm (e : sql_error) : string :=
  match e with
  | string_data_right_truncation n =>
      "value too long for type character varying(" +:+ pretty n +:+ ")"
  | numeric_value_out_of_range => "numeric field overflow"
  | integer_out_of_range => "integer out of range"
  | check_violation rel c =>
      "new row for relation " +:+ dq +:+ rel +:+ dq +:+
      " violates check constraint " +:+ dq +:+ c +:+ dq
  | not_null_violation rel col =>
      "null value in column " +:+ dq +:+ col +:+ dq +:+ " of relation " +:+
      dq +:+ rel +:+ dq +:+ " violates not-null constraint"
  | unique_violation c =>
      "duplicate key value violates unique constraint " +:+ dq +:+ c +:+ dq
  | foreign_key_violation rel c =>
      "insert or update on table " +:+ dq +:+ rel +:+ dq +:+
      " violates foreign key constraint " +:+ dq +:+ c +:+ dq
  end.

(** Statements either raise or yield a value. *)
Definition exn (A : Type) : Type := sql_error + A.

#[global] Instance exn_ret : MRet exn := λ A x, inr x.
#[global] Instance exn_bind : MBind exn := λ A B f m,
  match m with inl e => inl e | inr x => f x end.

Definition raise {A} (e : sql_error) : exn A := inl e.

(** A constraint: raise [e] unless [b]. *)
Definition check (b : bool) (e : sql_error) : exn unit :=
  if b then inr tt else inl e.

Fixpoint all_spaces (s : string) : bool :=
  match s with
  | EmptyString => true
  | String c s' => if Ascii.eqb c " "%char then all_spaces s' else false
  end.

(** Storing into a [VARCHAR(n)] column: a value of more than [n] characters
    is an error unless the excess is spaces only, which are cut off. *)
Definition varchar (n : nat) (s : string) : exn string :=
  if (String.length s <=? n)%nat then inr s
  else if all_spaces (substring n (String.length s - n) s)
       then inr (substring 0 n s)
       else raise (string_data_right_truncation n).

(** Assigning to [DECIMAL(10, 2)], in hundredths: at most ten digits. *)
Definition decimal_10_2 (c : Z) : exn Z :=
  if Z.abs c <? 10 ^ 10 then inr c else raise numeric_value_out_of_range.

(** An [INTEGER] result. *)
Definition int4 (v : Z) : exn Z :=
  if (- 2 ^ 31 <=? v) && (v <? 2 ^ 31) then inr v else raise integer_out_of_range.

(** A decimal number sent by a client, rounded to the two fractional digits
    of the column (half away from zero), in hundredths. *)
Definition round_2 (q : Q) : Z :=
  let n := Qnum q * 100 in
  let d := Z.pos (Qden q) in
  if 0 <=? n then (2 * n + d) / (2 * d) else - ((2 * (- n) + d) / (2 * d)).

End Pg.
Import Pg.

Global Arguments uuid_generate_v4 : simpl never.
Global Arguments varchar : simpl never.
Global Arguments uuid_out : simpl never.
Global Arguments sqlerrm : simpl never.

(** ** Tables *)

(** [customers] (migration 004) *)
Record customer_row := {
  c_first_name : string;
  c_last_name : string;
  c_email : string;
  c_created_at : timestamp;
  c_updated_at : timestamp;
}.

(** [products] (migration 002) *)
Record product_row := {
  p_name : string;
  p_description : option string;
  p_price : Z;
  p_stock : Z;
  p_image_url : option string;
  p_is_active : bool;
  p_created_at : timestamp;
  p_updated_at : timestamp;
}.

(** [sales] (migration 005) *)
Record sale_row := {
  s_customer_id : uuid;
  s_total : Z;
  s_created_at : timestamp;
  s_updated_at : timestamp;
}.

(** [sale_items] (migration 006) *)
Record sale_item_row := {
  si_sale_id : uuid;
  si_product_id : uuid;
  si_quantity : Z;
  si_unit_price : Z;
  si_subtotal : Z;
  si_created_at : timestamp;
}.

Record database := {
  customers : gmap uuid customer_row;
  products : gmap uuid product_row;
  sales : gmap uuid sale_row;
  sale_items : gmap uuid sale_item_row;
}.

(** [sale_item_input] *)
Record sale_item_input := {
  product_id : uuid;
  quantity : Z;
}.

(** The JSON object [process_sale] returns. *)
Inductive rpc_result :=
| Success (sale_id customer_id : uuid) (total : Z)
| Failure (message : string).

(** ** [process_sale] *)

Section process_sale.
(** [NOW()] *)
Variable now : timestamp.

(** [SELECT id INTO v_customer_id FROM customers WHERE email = ...] *)
Definition select_customer_by_email (email : string)
    (cs : gmap uuid customer_row) : option uuid :=
  fst <$> List.find (λ kc, bool_decide (c_email kc.2 = email)) (map_to_list cs).

Definition set_customer_names (f l : string) (c : customer_row) : customer_row :=
  {| c_first_name := f; c_last_name := l; c_email := c_email c;
     c_created_at := c_created_at c; c_updated_at := now |}.

Definition with_customers (cs : gmap uuid customer_row) (db : database) : database :=
  {| customers := cs; products := products db;
     sales := sales db; sale_items := sale_items db |}.

(** 1. Find or create customer *)
Definition resolve_customer (first last email : string) (db : database)
    : exn (uuid * database) :=
  match select_customer_by_email email (customers db) with
  | None =>
      f ← varchar 50 first;
      l ← varchar 50 last;
      e ← varchar 255 email;
      _ ← check (bool_decide (select_customer_by_email e (customers db) = None))
            (unique_violation "customers_email_key");
      let id := uuid_generate_v4 (customers db) in
      let row := {| c_first_name := f; c_last_name := l; c_email := e;
                    c_created_at := now; c_updated_at := now |} in
      mret (id, with_customers (<[id := row]> (customers db)) db)
  | Some id =>
      f ← varchar 50 first;
      l ← varchar 50 last;
      mret (id, with_customers (alter (set_customer_names f l) id (customers db)) db)
  end.

(** 2. Validate all products and check stock: the message of the first
    check that fails, if any. *)
Fixpoint validate_items (ps : gmap uuid product_row)
    (items : list sale_item_input) : option string :=
  match items with
  | [] => None
  | v_item :: rest =>
      match ps !! product_id v_item with
      | None => Some ("Product not found: " +:+ uuid_out (product_id v_item))
      | Some v_product =>
          if negb (p_is_active v_product) then
            Some ("Product is not active: " +:+ p_name v_product)
          else if p_stock v_product <? quantity v_item then
            Some ("Insufficient stock for product: " +:+ p_name v_product +:+
                  " (available: " +:+ pretty (p_stock v_product) +:+
                  ", requested: " +:+ pretty (quantity v_item) +:+ ")")
          else validate_items ps rest
      end
  end.

(** 3. Create sale *)
Definition insert_sale (v_customer_id : uuid) (total : Z) (db : database)
    : exn (uuid * database) :=
  _ ← check (0 <=? total) (check_violation "sales" "sales_total_check");
  _ ← check (bool_decide (v_customer_id ∈ dom (customers db)))
        (foreign_key_violation "sales" "sales_customer_id_fkey");
  let id := uuid_generate_v4 (sales db) in
  let row := {| s_customer_id := v_customer_id; s_total := total;
                s_created_at := now; s_updated_at := now |} in
  mret (id, {| customers := customers db; products := products db;
               sales := <[id := row]> (sales db); sale_items := sale_items db |}).

Definition set_stock (stock : Z) (p : product_row) : product_row :=
  {| p_name := p_name p; p_description := p_description p; p_price := p_price p;
     p_stock := stock; p_image_url := p_image_url p; p_is_active := p_is_active p;
     p_created_at := p_created_at p; p_updated_at := now |}.

(** 4. One turn of the loop over the items: price, subtotal, running total,
    the sale item, the stock.  With no product of that id the price read is
    [NULL] and the insert fails on [unit_price NOT NULL]; the [CHECK]s of
    [sale_items] are tried in the order of their names. *)
Definition process_item (v_sale_id : uuid) (v_item : sale_item_input)
    (st : database * Z) : exn (database * Z) :=
  let '(db, v_total) := st in
  match products db !! product_id v_item with
  | None => raise (not_null_violation "sale_items" "unit_price")
  | Some v_product =>
      v_subtotal ← decimal_10_2 (p_price v_product * quantity v_item);
      v_total ← decimal_10_2 (v_total + v_subtotal);
      _ ← check (0 <? quantity v_item)
            (check_violation "sale_items" "sale_items_quantity_check");
      _ ← check (0 <=? v_subtotal)
            (check_violation "sale_items" "sale_items_subtotal_check");
      _ ← check (0 <=? p_price v_product)
            (check_violation "sale_items" "sale_items_unit_price_check");
      _ ← check (bool_decide (v_sale_id ∈ dom (sales db)))
            (foreign_key_violation "sale_items" "sale_items_sale_id_fkey");
      let id := uuid_generate_v4 (sale_items db) in
      let row := {| si_sale_id := v_sale_id; si_product_id := product_id v_item;
                    si_quantity := quantity v_item;
                    si_unit_price := p_price v_product;
                    si_subtotal := v_subtotal; si_created_at := now |} in
      stock ← int4 (p_stock v_product - quantity v_item);
      _ ← check (0 <=? stock) (check_violation "products" "products_stock_check");
      mret ({| customers := customers db;
               products := <[product_id v_item := set_stock stock v_product]> (products db);
               sales := sales db;
               sale_items := <[id := row]> (sale_items db) |}, v_total)
  end.

Fixpoint process_items (v_sale_id : uuid) (items : list sale_item_input)
    (st : database * Z) : exn (database * Z) :=
  match items with
  | [] => mret st
  | v_item :: rest =>
      st' ← process_item v_sale_id v_item st;
      process_items v_sale_id rest st'
  end.

Definition set_total (total : Z) (s : sale_row) : sale_row :=
  {| s_customer_id := s_customer_id s; s_total := total;
     s_created_at := s_created_at s; s_updated_at := now |}.

(** 5. Update sale total *)
Definition update_sale_total (v_sale_id : uuid) (v_total : Z) (db : database)
    : exn database :=
  _ ← check (0 <=? v_total) (check_violation "sales" "sales_total_check");
  mret {| customers := customers db; products := products db;
          sales := alter (set_total v_total) v_sale_id (sales db);
          sale_items := sale_items db |}.

(** The block between [BEGIN] and [EXCEPTION]. *)
Definition process_sale_block (first last email : string)
    (items : list sale_item_input) (db : database) : exn (rpc_result * database) :=
  '(v_customer_id, db1) ← resolve_customer first last email db;
  match validate_items (products db1) items with
  | Some message => mret (Failure message, db1)
  | None =>
      '(v_sale_id, db2) ← insert_sale v_customer_id 0 db1;
      '(db3, v_total) ← process_items v_sale_id items (db2, 0);
      db4 ← update_sale_total v_sale_id v_total db3;
      mret (Success v_sale_id v_customer_id v_total, db4)
  end.

(** The function: when the block raises, its effects are undone and the
    handler returns the failure. *)
Definition process_sale (first last email : string)
    (items : list sale_item_input) (db : database) : rpc_result * database :=
  match process_sale_block first last email items db with
  | inl e => (Failure ("Transaction failed: " +:+ sqlerrm e), db)
  | inr out => out
  end.

End process_sale.

Global Arguments process_item : simpl never.
Global Arguments resolve_customer : simpl never.

(** ** Notions the properties are stated with *)

(** The [UNIQUE] constraint on [customers.email]. *)
Definition emails_unique (cs : gmap uuid customer_row) : Prop :=
  ∀ i j ci cj, cs !! i = Some ci → cs !! j = Some cj →
    c_email ci = c_email cj → i = j.

(** The fields of the customer fit the columns they go to:
    [first_name VARCHAR(50)], [last_name VARCHAR(50)], [email VARCHAR(255)]. *)
Definition customer_fits (first last email : string) : Prop :=
  (String.length first ≤ 50)%nat ∧ (String.length last ≤ 50)%nat ∧
  (String.length email ≤ 255)%nat.

(** A line that passes the three checks. *)
Definition line_valid (ps : gmap uuid product_row) (it : sale_item_input) : Prop :=
  ∃ p, ps !! product_id it = Some p ∧ p_is_active p = true ∧ quantity it ≤ p_stock p.

(** The row step 4 inserts for a line. *)
Definition new_sale_item now (v_sale_id : uuid) (it : sale_item_input)
    (p : product_row) : sale_item_row :=
  {| si_sale_id := v_sale_id; si_product_id := product_id it;
     si_quantity := quantity it; si_unit_price := p_price p;
     si_subtotal := p_price p * quantity it; si_created_at := now |}.

(** How much of a product a request asks for, over all its lines. *)
Definition requested (pid : uuid) (items : list sale_item_input) : Z :=
  foldr (λ it acc, if decide (product_id it = pid) then quantity it + acc else acc)
        0 items.

(** What the lines of a request cost at the prices of [ps]. *)
Definition order_value (ps : gmap uuid product_row) (items : list sale_item_input) : Z :=
  foldr (λ it acc, from_option (λ p, p_price p * quantity it) 0 (ps !! product_id it) + acc)
        0 items.

(** The ways a call ends, with the result and the store it leaves: a
    statement raised and the handler undid the block; a check of step 2
    returned its message after step 1; or all steps ran. *)
Inductive sale_outcome now first last email items (db : database)
    : rpc_result → database → Prop :=
| outcome_raised e :
    process_sale_block now first last email items db = inl e →
    sale_outcome now first last email items db
      (Failure ("Transaction failed: " +:+ sqlerrm e)) db
| outcome_rejected cid db1 message :
    resolve_customer now first last email db = inr (cid, db1) →
    validate_items (products db) items = Some message →
    sale_outcome now first last email items db (Failure message) db1
| outcome_committed cid db1 sid db2 db3 total db4 :
    resolve_customer now first last email db = inr (cid, db1) →
    validate_items (products db) items = None →
    insert_sale now cid 0 db1 = inr (sid, db2) →
    process_items now sid items (db2, 0) = inr (db3, total) →
    update_sale_total now sid total db3 = inr db4 →
    sale_outcome now first last email items db (Success sid cid total) db4.

(** The foreign key of [sale_items.sale_id]. *)
Definition sale_items_reference_sales (db : database) : Prop :=
  ∀ i row, sale_items db !! i = Some row → si_sale_id row ∈ dom (sales db).

(** [SELECT SUM(quantity) FROM sale_items WHERE product_id = pid] *)
Definition quantity_sold (pid : uuid) (rows : gmap uuid sale_item_row) : Z :=
  map_fold (λ _ row acc,
              if decide (si_product_id row = pid) then si_quantity row + acc else acc)
           0 rows.

(** [SELECT SUM(subtotal) FROM sale_items WHERE sale_id = sid] *)
Definition sale_subtotals (sid : uuid) (rows : gmap uuid sale_item_row) : Z :=
  map_fold (λ _ row acc,
              if decide (si_sale_id row = sid) then si_subtotal row + acc else acc)
           0 rows.

(** The rows a sale adds: each is a line at the price the product had. *)
Definition priced_at (ps : gmap uuid product_row) (sid : uuid) (row : sale_item_row) : Prop :=
  si_sale_id row = sid ∧ 0 < si_quantity row ∧
  si_subtotal row = si_quantity row * si_unit_price row ∧
  ∃ p, ps !! si_product_id row = Some p ∧ si_unit_price row = p_price p.

(** The constraints of the [products] table: [CHECK (price > 0)],
    [CHECK (stock >= 0)], and the stock an [INTEGER]. *)
Definition products_ok (ps : gmap uuid product_row) : Prop :=
  ∀ pid p, ps !! pid = Some p → 0 < p_price p ∧ 0 ≤ p_stock p < 2 ^ 31.

(** ** Calls one after the other *)

Record sale_request := {
  r_now : timestamp;
  r_first : string;
  r_last : string;
  r_email : string;
  r_items : list sale_item_input;
}.

Definition run_request (r : sale_request) (db : database) : rpc_result * database :=
  process_sale (r_now r) (r_first r) (r_last r) (r_email r) (r_items r) db.

Definition committed (res : rpc_result) : bool :=
  match res with Success _ _ _ => true | Failure _ => false end.

Fixpoint run_requests (rs : list sale_request) (db : database) : database :=
  match rs with
  | [] => db
  | r :: rest => run_requests rest (run_request r db).2
  end.

(** The quantity of a product in the requests of the sequence that commit. *)
Fixpoint sold (pid : uuid) (rs : list sale_request) (db : database) : Z :=
  match rs with
  | [] => 0
  | r :: rest =>
      (if committed (run_request r db).1 then requested pid (r_items r) else 0)
      + sold pid rest (run_request r db).2
  end.

(** ** [AppError.ts] *)

Record error_detail := {
  field : string;
  detail_message : string;
  detail_code : string;
}.

Record AppError := {
  message : string;
  statusCode : Z;
  code : string;
  isOperational : bool;
  details : list error_detail;
}.

Module AppErrors.
Definition badRequest (msg : string) : AppError :=
  {| message := msg; statusCode := 400; code := "BAD_REQUEST";
     isOperational := true; details := [] |}.
Definition notFound (msg : string) : AppError :=
  {| message := msg; statusCode := 404; code := "NOT_FOUND";
     isOperational := true; details := [] |}.
Definition validation (msg : string) (ds : list error_detail) : AppError :=
  {| message := msg; statusCode := 422; code := "VALIDATION_ERROR";
     isOperational := true; details := ds |}.
Definition internal (msg : string) : AppError :=
  {| message := msg; statusCode := 500; code := "INTERNAL_ERROR";
     isOperational := false; details := [] |}.
End AppErrors.

(** ** The catalog: [products.service.ts] *)

(** [CreateProductInput] *)
Record CreateProductInput := {
  cp_name : string;
  cp_description : option string;
  cp_price : Q;
  cp_stock : Z;
}.

(** [UpdateProductInput]: every field may be absent. *)
Record UpdateProductInput := {
  up_name : option string;
  up_description : option string;
  up_price : option Q;
  up_stock : option Z;
}.

(** The image of a request, with what [uploadImage] makes of it: the public
    URL, or nothing when the upload fails. *)
Definition image_file := option (option string).

Section catalog.
Variable now : timestamp.

(** What the [products] table asks of a row that is written. *)
Definition products_row_checks (p : product_row) : exn product_row :=
  name ← varchar 100 (p_name p);
  price ← decimal_10_2 (p_price p);
  stock ← int4 (p_stock p);
  _ ← check (0 <? price) (check_violation "products" "products_price_check");
  _ ← check (0 <=? stock) (check_violation "products" "products_stock_check");
  mret {| p_name := name; p_description := p_description p; p_price := price;
          p_stock := stock; p_image_url := p_image_url p;
          p_is_active := p_is_active p; p_created_at := p_created_at p;
          p_updated_at := p_updated_at p |}.

Definition with_products (ps : gmap uuid product_row) (db : database) : database :=
  {| customers := customers db; products := ps;
     sales := sales db; sale_items := sale_items db |}.

Definition getProductById (id : uuid) (db : database) : AppError + product_row :=
  match products db !! id with
  | Some p =>
      if p_is_active p then inr p else inl (AppErrors.notFound "Product not found")
  | None => inl (AppErrors.notFound "Product not found")
  end.

Definition createProduct (productData : CreateProductInput) (imageFile : image_file)
    (db : database) : (AppError + uuid * product_row) * database :=
  match imageFile with
  | Some None => (inl (AppErrors.internal "Failed to upload image"), db)
  | _ =>
      let imageUrl := imageFile ≫= (λ u, u) in
      let row :=
        {| p_name := cp_name productData;
           p_description :=
             match cp_description productData with
             | Some EmptyString => None
             | d => d
             end;
           p_price := round_2 (cp_price productData);
           p_stock := cp_stock productData;
           p_image_url := imageUrl; p_is_active := true;
           p_created_at := now; p_updated_at := now |} in
      match products_row_checks row with
      | inl _ => (inl (AppErrors.internal "Failed to create product"), db)
      | inr row' =>
          let id := uuid_generate_v4 (products db) in
          (inr (id, row'), with_products (<[id := row']> (products db)) db)
      end
  end.

Definition updateProduct (id : uuid) (productData : UpdateProductInput)
    (imageFile : image_file) (db : database)
    : (AppError + uuid * product_row) * database :=
  match getProductById id db with
  | inl e => (inl e, db)
  | inr old =>
      match imageFile with
      | Some None => (inl (AppErrors.internal "Failed to upload image"), db)
      | _ =>
          let imageUrl := imageFile ≫= (λ u, u) in
          let row :=
            {| p_name := default (p_name old) (up_name productData);
               p_description :=
                 match up_description productData with
                 | Some d => Some d
                 | None => p_description old
                 end;
               p_price :=
                 match up_price productData with
                 | Some q => round_2 q
                 | None => p_price old
                 end;
               p_stock := default (p_stock old) (up_stock productData);
               p_image_url :=
                 match imageUrl with
                 | Some EmptyString | None => p_image_url old
                 | Some u => Some u
                 end;
               p_is_active := p_is_active old;
               p_created_at := p_created_at old; p_updated_at := now |} in
          match products_row_checks row with
          | inl _ => (inl (AppErrors.internal "Failed to update product"), db)
          | inr row' =>
              (inr (id, row'), with_products (<[id := row']> (products db)) db)
          end
      end
  end.

Definition set_inactive (p : product_row) : product_row :=
  {| p_name := p_name p; p_description := p_description p; p_price := p_price p;
     p_stock := p_stock p; p_image_url := p_image_url p; p_is_active := false;
     p_created_at := p_created_at p; p_updated_at := now |}.

(** Soft delete *)
Definition deleteProduct (id : uuid) (db : database) : (AppError + unit) * database :=
  match getProductById id db with
  | inl e => (inl e, db)
  | inr _ => (inr tt, with_products (alter set_inactive id (products db)) db)
  end.

End catalog.

(** A mutation of the catalog. *)
Inductive catalog_op :=
| CreateProduct (now : timestamp) (productData : CreateProductInput) (imageFile : image_file)
| UpdateProduct (now : timestamp) (id : uuid) (productData : UpdateProductInput)
    (imageFile : image_file)
| DeleteProduct (now : timestamp) (id : uuid).

Definition apply_catalog_op (op : catalog_op) (db : database) : database :=
  match op with
  | CreateProduct now d f => (createProduct now d f db).2
  | UpdateProduct now id d f => (updateProduct now id d f db).2
  | DeleteProduct now id => (deleteProduct now id db).2
  end.

(** ** The request schema: [sales.schema.ts] *)

(** What [Number(...)] makes of the quantity of a request. *)
Inductive jsnumber :=
| JNaN
| JInfinity (negative : bool)
| JFinite (q : Q).

(** A request body that has the shape of the schema, before any check. *)
Record raw_item := {
  raw_productId : string;
  raw_quantity : jsnumber;
}.

Record raw_sale := {
  raw_firstName : string;
  raw_lastName : string;
  raw_email : string;
  raw_items : list raw_item;
}.

(** [CreateSaleInput] *)
Record SaleItemInput := {
  productId : string;
  item_quantity : Z;
}.

Record CreateSaleInput := {
  firstName : string;
  lastName : string;
  email : string;
  items : list SaleItemInput;
}.

(** An issue of a [ZodError]: the path joined with dots, the message and the
    code. *)
Definition zod_issue := error_detail.

Definition issue (path msg c : string) : zod_issue :=
  {| field := path; detail_message := msg; detail_code := c |}.

Definition issue_unless (ok : bool) (path msg c : string) : list zod_issue :=
  if ok then [] else [issue path msg c].

Definition is_integer (n : jsnumber) : bool :=
  match n with
  | JFinite q => Pos.eqb (Qden (Qred q)) 1
  | _ => false
  end.

Definition is_positive (n : jsnumber) : bool :=
  match n with
  | JNaN => false
  | JInfinity negative => negb negative
  | JFinite q => 0 <? Qnum q
  end.

Definition at_most (bound : Z) (n : jsnumber) : bool :=
  match n with
  | JNaN => false
  | JInfinity negative => negative
  | JFinite q => Qle_bool q (inject_Z bound)
  end.

Definition integer_value (n : jsnumber) : Z :=
  match n with
  | JFinite q => Qnum (Qred q)
  | _ => 0
  end.

Section sales_api.
(** The two checks of strings that the schema takes from its library. *)
Variable is_uuid : string → bool.
Variable is_email : string → bool.
(** The value of a UUID that the store reads from its text, if it is one. *)
Variable uuid_in : string → option uuid.

(** [z.coerce.number().int(...).positive(...).max(100, ...)] *)
Definition quantity_issues (path : string) (n : jsnumber) : list zod_issue :=
  match n with
  | JNaN => [issue path "Expected number, received nan" "invalid_type"]
  | _ =>
      issue_unless (is_integer n) path "Quantity must be an integer" "invalid_type" ++
      issue_unless (is_positive n) path "Quantity must be positive" "too_small" ++
      issue_unless (at_most 100 n) path "Quantity cannot exceed 100 per item" "too_big"
  end.

(** [saleItemSchema], for the item at index [i] *)
Definition saleItemSchema_issues (i : nat) (it : raw_item) : list zod_issue :=
  issue_unless (is_uuid (raw_productId it))
    ("items." +:+ pretty i +:+ ".productId") "Invalid product ID" "invalid_string" ++
  quantity_issues ("items." +:+ pretty i +:+ ".quantity") (raw_quantity it).

Definition name_issues (path what : string) (s : string) : list zod_issue :=
  issue_unless (2 <=? String.length s)%nat path
    (what +:+ " must be at least 2 characters") "too_small" ++
  issue_unless (String.length s <=? 50)%nat path
    (what +:+ " must not exceed 50 characters") "too_big".

Definition createSaleSchema_issues (b : raw_sale) : list zod_issue :=
  name_issues "customer.firstName" "First name" (raw_firstName b) ++
  name_issues "customer.lastName" "Last name" (raw_lastName b) ++
  issue_unless (is_email (raw_email b)) "customer.email"
    "Invalid email format" "invalid_string" ++
  issue_unless (1 <=? length (raw_items b))%nat "items"
    "At least one item is required" "too_small" ++
  issue_unless (length (raw_items b) <=? 50)%nat "items"
    "Cannot exceed 50 items per sale" "too_big" ++
  mjoin (imap saleItemSchema_issues (raw_items b)).

(** [createSaleSchema.parse]: the issues, or the parsed request. *)
Definition createSaleSchema (b : raw_sale) : list zod_issue + CreateSaleInput :=
  match createSaleSchema_issues b with
  | [] =>
      inr {| firstName := raw_firstName b; lastName := raw_lastName b;
             email := raw_email b;
             items := map (λ it, {| productId := raw_productId it;
                                    item_quantity := integer_value (raw_quantity it) |})
                          (raw_items b) |}
  | issues => inl issues
  end.

(** ** The service: [sales.service.ts] *)

(** Whether the store answers the call at all. *)
Inductive transport := Reachable | Unreachable.

(** A call of the [process_sale] function, as the store receives it. *)
Record rpc_call := {
  p_customer_first_name : string;
  p_customer_last_name : string;
  p_customer_email : string;
  p_items : list SaleItemInput;
}.

(** What [supabase.rpc] resolves to: the JSON of the function, or an error
    (of which [createSale] only looks at the presence). *)
Record rpc_response := {
  data : option rpc_result;
  error : option string;
}.

(** The items of a call as [sale_item_input[]]: every id must read as a
    UUID and every quantity as an [INTEGER]. *)
Fixpoint items_in (its : list SaleItemInput) : option (list sale_item_input) :=
  match its with
  | [] => Some []
  | it :: rest =>
      match uuid_in (productId it), int4 (item_quantity it), items_in rest with
      | Some u, inr q, Some rest' => Some ({| product_id := u; quantity := q |} :: rest')
      | _, _, _ => None
      end
  end.

Definition supabase_rpc (t : transport) (now : timestamp) (call : rpc_call)
    (db : database) : rpc_response * database :=
  match t with
  | Unreachable => ({| data := None; error := Some "fetch failed" |}, db)
  | Reachable =>
      match items_in (p_items call) with
      | None => ({| data := None; error := Some "invalid input syntax" |}, db)
      | Some its =>
          let '(res, db') :=
            process_sale now (p_customer_first_name call) (p_customer_last_name call)
              (p_customer_email call) its db in
          ({| data := Some res; error := None |}, db')
      end
  end.

(** What [createSale] resolves to.  [total] is [parseFloat] of the JSON text
    of the [DECIMAL(10, 2)] total: it is kept here as the decimal that text
    denotes, in hundredths. *)
Record sale_created := {
  saleId : uuid;
  customerId : uuid;
  total : Z;
}.

(** [createSale]: the outcome, the store afterwards, and the calls made. *)
Definition createSale (t : transport) (now : timestamp) (saleData : CreateSaleInput)
    (db : database) : (AppError + sale_created) * database * list rpc_call :=
  let call := {| p_customer_first_name := firstName saleData;
                 p_customer_last_name := lastName saleData;
                 p_customer_email := email saleData;
                 p_items := items saleData |} in
  let '(response, db') := supabase_rpc t now call db in
  (match error response, data response with
   | Some _, _ => inl (AppErrors.internal "Failed to process sale")
   | None, None => inl (AppErrors.internal "No response from process_sale RPC")
   | None, Some (Failure msg) =>
       inl (AppErrors.badRequest
              (if String.eqb msg "" then "Failed to process sale" else msg))
   | None, Some (Success sale_id customer_id v_total) =>
       inr {| saleId := sale_id; customerId := customer_id; total := v_total |}
   end, db', [call]).

(** ** The route: [validate(createSaleSchema)], the controller, the error
    middleware *)

Inductive http_body :=
| SuccessBody (result : sale_created) (msg : string)
| ErrorBody (c msg : string) (ds : list error_detail).

Record http_response := {
  status : Z;
  body : http_body;
}.

Definition errorMiddleware (e : AppError) : http_response :=
  {| status := statusCode e; body := ErrorBody (code e) (message e) (details e) |}.

(** [validate(createSaleSchema)]: the error handed to [next], or the parsed
    body. *)
Definition validate (b : raw_sale) : AppError + CreateSaleInput :=
  match createSaleSchema b with
  | inl issues => inl (AppErrors.validation "Validation failed for body" issues)
  | inr validatedData => inr validatedData
  end.

(** [POST /api/sales] *)
Definition post_sales (t : transport) (now : timestamp) (b : raw_sale) (db : database)
    : http_response * database * list rpc_call :=
  match validate b with
  | inl e => (errorMiddleware e, db, [])
  | inr saleData =>
      let '(out, db', calls) := createSale t now saleData db in
      (match out with
       | inl e => errorMiddleware e
       | inr result =>
           {| status := 201; body := SuccessBody result "Sale created successfully" |}
       end, db', calls)
  end.

End sales_api.

(** Anything that writes to the store: a call of [process_sale] or a
    mutation of the catalog. *)
Inductive store_event :=
| SaleCall (r : sale_request)
| CatalogCall (op : catalog_op).

Definition apply_event (ev : store_event) (db : database) : database :=
  match ev with
  | SaleCall r => (run_request r db).2
  | CatalogCall op => apply_catalog_op op db
  end.

Fixpoint run_events (evs : list store_event) (db : database) : database :=
  match evs with
  | [] => db
  | ev :: rest => run_events rest (apply_event ev db)
  end.

(** ** What a rejection tells *)

(** The kinds of failure a caller would want to tell apart. *)
Inductive failure_kind :=
| ProductNotFound
| ProductInactive
| InsufficientStock
| SystemFailure.

(** The check of step 2 that rejects the items, if one does. *)
Fixpoint failing_rule (ps : gmap uuid product_row)
    (items : list sale_item_input) : option failure_kind :=
  match items with
  | [] => None
  | v_item :: rest =>
      match ps !! product_id v_item with
      | None => Some ProductNotFound
      | Some v_product =>
          if negb (p_is_active v_product) then Some ProductInactive
          else if p_stock v_product <? quantity v_item then Some InsufficientStock
          else failing_rule ps rest
      end
  end.

(** Why a call failed: a statement raised, or a check of step 2 rejected. *)
Definition failure_kind_of (now : timestamp) (first last email : string)
    (items : list sale_item_input) (db : database) : option failure_kind :=
  match process_sale_block now first last email items db with
  | inl _ => Some SystemFailure
  | inr (Failure _, _) => failing_rule (products db) items
  | inr (Success _ _ _, _) => None
  end.

(** How a caller reads the kind of failure off the message of a rejection:
    by the words it begins with. *)
Definition kind_of_message (msg : string) : failure_kind :=
  if String.prefix "Product not found: " msg then ProductNotFound
  else if String.prefix "Product is not active: " msg then ProductInactive
  else if String.prefix "Insufficient stock for product: " msg then InsufficientStock
  else SystemFailure.

(** All of an [AppError] but its message. *)
Definition machine_part (e : AppError) : Z * string * bool * list error_detail :=
  (statusCode e, code e, isOperational e, details e).

(** The reading of the specification: the kind of failure can be told from
    the rejection without its message. *)
Definition reason_code_identifies_failure (uuid_in : string → option uuid) : Prop :=
  ∃ classify : Z * string * bool * list error_detail → failure_kind,
    ∀ now saleData db its e,
      items_in uuid_in (items saleData) = Some its →
      (createSale uuid_in Reachable now saleData db).1.1 = inl e →
      failure_kind_of now (firstName saleData) (lastName saleData) (email saleData)
        its db = Some (classify (machine_part e)).

(** A quantity the schema accepts: a whole number from 1 to 100. *)
Definition quantity_acceptable (n : jsnumber) : Prop :=
  ∃ z : Z, (∃ q, n = JFinite q ∧ Qeq q (inject_Z z)) ∧ 0 < z ≤ 100.

(** ** Mutations of the catalog, one after the other *)

Fixpoint run_catalog_ops (ops : list catalog_op) (db : database) : database :=
  match ops with
  | [] => db
  | op :: rest => run_catalog_ops rest (apply_catalog_op op db)
  end.

(** ** Integrity of the store *)

(** The foreign key of [sales.customer_id]. *)
Definition sales_reference_customers (db : database) : Prop :=
  ∀ i row, sales db !! i = Some row → s_customer_id row ∈ dom (customers db).

(** The foreign key of [sale_items.product_id]. *)
Definition sale_items_reference_products (db : database) : Prop :=
  ∀ i row, sale_items db !! i = Some row → si_product_id row ∈ dom (products db).

(** The sum of the totals stored in [sales]: the exact sum, a number with no
    bound on its digits, and 0 when there is no sale. *)
Definition sum_of_totals (rows : gmap uuid sale_row) : Z :=
  map_fold (λ _ row acc, s_total row + acc) 0 rows.

(** The sum of the subtotals stored in [sale_items]: the exact sum, and 0
    when there is no sale item. *)
Definition sum_of_subtotals (rows : gmap uuid sale_item_row) : Z :=
  map_fold (λ _ row acc, si_subtotal row + acc) 0 rows.

(** The sum of the totals stored in [sales] for one customer: the exact
    sum, and 0 when the customer has no sale. *)
Definition sales_total_of_customer (cid : uuid) (rows : gmap uuid sale_row) : Z :=
  map_fold (λ _ row acc,
              if decide (s_customer_id row = cid) then s_total row + acc else acc)
           0 rows.

(** [CHECK (total >= 0)] of [sales]. *)
Definition sales_ok (rows : gmap uuid sale_row) : Prop :=
  ∀ i row, rows !! i = Some row → 0 ≤ s_total row.

(** [CHECK (quantity > 0)], [CHECK (unit_price >= 0)] and
    [CHECK (subtotal >= 0)] of [sale_items]. *)
Definition sale_items_ok (rows : gmap uuid sale_item_row) : Prop :=
  ∀ i row, rows !! i = Some row →
    0 < si_quantity row ∧ 0 ≤ si_unit_price row ∧ 0 ≤ si_subtotal row.

(** The [CHECK] and [UNIQUE] constraints of the four tables. *)
Definition checks_hold (db : database) : Prop :=
  products_ok (products db) ∧ emails_unique (customers db) ∧
  sales_ok (sales db) ∧ sale_items_ok (sale_items db).

(** The three foreign keys. *)
Definition references_hold (db : database) : Prop :=
  sales_reference_customers db ∧ sale_items_reference_sales db ∧
  sale_items_reference_products db.

(** ** Reading a sale back: [getSaleById] of [sales.service.ts] *)

(** The [customer] of a [FormattedSaleWithItems]: id, firstName, lastName,
    email. *)
Record sale_customer := {
  sc_id : uuid;
  sc_firstName : string;
  sc_lastName : string;
  sc_email : string;
}.

(** An element of its [items]: id, productId, productName, quantity,
    unitPrice, subtotal (the two amounts in hundredths). *)
Record FormattedSaleItem := {
  fi_id : uuid;
  fi_productId : uuid;
  fi_productName : string;
  fi_quantity : Z;
  fi_unitPrice : Z;
  fi_subtotal : Z;
}.

(** [FormattedSaleWithItems]: id, customer, total, items, createdAt. *)
Record FormattedSaleWithItems := {
  fs_id : uuid;
  fs_customer : sale_customer;
  fs_total : Z;
  fs_items : list FormattedSaleItem;
  fs_createdAt : timestamp;
}.

(** [.order('created_at', { ascending: true })] *)
Definition created_before (a b : uuid * sale_item_row) : Prop :=
  si_created_at a.2 ≤ si_created_at b.2.

#[global] Instance created_before_dec a b : Decision (created_before a b) :=
  Z_le_dec (si_created_at a.2) (si_created_at b.2).

(** The rows of [sale_items] with [sale_id = id], oldest first; rows created
    at the same instant come in the order the store yields them. *)
Definition sale_item_rows (id : uuid) (db : database) : list (uuid * sale_item_row) :=
  merge_sort created_before
    (filter (λ kr, si_sale_id kr.2 = id) (map_to_list (sale_items db))).

(** A row with the name of its product; [products!inner(name)] leaves out a
    row without a product. *)
Definition format_sale_item (db : database) (kr : uuid * sale_item_row)
    : option FormattedSaleItem :=
  p ← products db !! si_product_id kr.2;
  Some {| fi_id := kr.1; fi_productId := si_product_id kr.2;
          fi_productName := p_name p; fi_quantity := si_quantity kr.2;
          fi_unitPrice := si_unit_price kr.2; fi_subtotal := si_subtotal kr.2 |}.

Definition getSaleById (id : uuid) (db : database) : AppError + FormattedSaleWithItems :=
  match sales db !! id with
  | None => inl (AppErrors.notFound "Sale not found")
  | Some sale =>
      match customers db !! s_customer_id sale with
      | None => inl (AppErrors.notFound "Sale not found")
      | Some c =>
          inr {| fs_id := id;
                 fs_customer := {| sc_id := s_customer_id sale;
                                   sc_firstName := c_first_name c;
                                   sc_lastName := c_last_name c;
                                   sc_email := c_email c |};
                 fs_total := s_total sale;
                 fs_items := omap (format_sale_item db) (sale_item_rows id db);
                 fs_createdAt := s_created_at sale |}
      end
  end.

(** A line of a request and an item read back that say the same: product,
    quantity, and price, subtotal and name as the catalog [ps] has them. *)
Definition item_matches_line (ps : gmap uuid product_row)
    (it : sale_item_input) (fi : FormattedSaleItem) : Prop :=
  fi_productId fi = product_id it ∧ fi_quantity fi = quantity it ∧
  ∃ p, ps !! product_id it = Some p ∧ fi_unitPrice fi = p_price p ∧
       fi_subtotal fi = p_price p * quantity it ∧ fi_productName fi = p_name p.

(** ** A small shop, for the examples *)

Definition espresso : product_row :=
  {| p_name := "Espresso"; p_description := None; p_price := 500; p_stock := 10;
     p_image_url := None; p_is_active := true; p_created_at := 0; p_updated_at := 0 |}.

Definition mocha : product_row :=
  {| p_name := "Mocha"; p_description := None; p_price := 650; p_stock := 4;
     p_image_url := None; p_is_active := false; p_created_at := 0; p_updated_at := 0 |}.

Definition decaf : product_row :=
  {| p_name := "Decaf"; p_description := None; p_price := 300; p_stock := 1;
     p_image_url := None; p_is_active := true; p_created_at := 0; p_updated_at := 0 |}.

Definition ann : customer_row :=
  {| c_first_name := "Ann"; c_last_name := "Lee"; c_email := "a@x.com";
     c_created_at := 0; c_updated_at := 0 |}.

Definition shop : database :=
  {| customers := {[ 1%N := ann ]};
     products := {[ 1%N := espresso; 2%N := mocha; 3%N := decaf ]};
     sales := ∅; sale_items := ∅ |}.

Definition line (pid : uuid) (q : Z) : sale_item_input :=
  {| product_id := pid; quantity := q |}.

Definition demo_requests : list sale_request :=
  [ {| r_now := 5; r_first := "Ann"; r_last := "Lee"; r_email := "a@x.com";
       r_items := [line 1 3] |};
    {| r_now := 6; r_first := "Bob"; r_last := "Ray"; r_email := "b@x.com";
       r_items := [line 1 20] |};
    {| r_now := 7; r_first := "Ann"; r_last := "Lee"; r_email := "a@x.com";
       r_items := [line 1 2; line 3 1] |} ].

(** The usual spelling of a UUID: 8-4-4-4-12 hexadecimal digits of either
    case. *)
Definition hex_value (c : ascii) : option N :=
  let n := N_of_ascii c in
  if (48 <=? n)%N && (n <=? 57)%N then Some (n - 48)%N
  else if (97 <=? n)%N && (n <=? 102)%N then Some (n - 87)%N
  else if (65 <=? n)%N && (n <=? 70)%N then Some (n - 55)%N
  else None.

Fixpoint parse_hex (s : string) (acc : N) : option N :=
  match s with
  | EmptyString => Some acc
  | String c s' => v ← hex_value c; parse_hex s' (16 * acc + v)%N
  end.

Definition canonical_uuid (s : string) : option uuid :=
  if (String.length s =? 36)%nat
     && String.eqb (substring 8 1 s) "-" && String.eqb (substring 13 1 s) "-"
     && String.eqb (substring 18 1 s) "-" && String.eqb (substring 23 1 s) "-"
  then parse_hex (substring 0 8 s +:+ substring 9 4 s +:+ substring 14 4 s +:+
                  substring 19 4 s +:+ substring 24 12 s) 0%N
  else None.

Definition looks_like_uuid (s : string) : bool := bool_decide (is_Some (canonical_uuid s)).

Fixpoint has_at (s : string) : bool :=
  match s with
  | EmptyString => false
  | String c s' => if Ascii.eqb c "@"%char then true else has_at s'
  end.

Definition item (pid : string) (q : Z) : SaleItemInput :=
  {| productId := pid; item_quantity := q |}.

Definition order (first last mail : string) (its : list SaleItemInput) : CreateSaleInput :=
  {| firstName := first; lastName := last; email := mail; items := its |}.

Definition unknown_product_order : CreateSaleInput :=
  order "Ann" "Lee" "a@x.com" [item "00000000-0000-0000-0000-000000000008" 1].

Definition inactive_product_order : CreateSaleInput :=
  order "Ann" "Lee" "a@x.com" [item "00000000-0000-0000-0000-000000000002" 1].

Definition short_stock_order : CreateSaleInput :=
  order "Ann" "Lee" "a@x.com" [item "00000000-0000-0000-0000-000000000003" 2].

Definition split_lines_order : CreateSaleInput :=
  order "Ann" "Lee" "a@x.com" [item "00000000-0000-0000-0000-000000000001" 6;
                               item "00000000-0000-0000-0000-000000000001" 6].

Definition body_of (its : list raw_item) : raw_sale :=
  {| raw_firstName := "Ann"; raw_lastName := "Lee"; raw_email := "a@x.com";
     raw_items := its |}.

Definition raw (pid : string) (q : Q) : raw_item :=
  {| raw_productId := pid; raw_quantity := JFinite q |}.

(** A history for the examples: a sale, a change of price, a deletion, a
    sale that is rejected for the deleted product, and a sale. *)
Definition demo_events : list store_event :=
  [ SaleCall {| r_now := 5; r_first := "Ann"; r_last := "Lee"; r_email := "a@x.com";
                r_items := [line 1 3; line 3 1] |};
    CatalogCall (UpdateProduct 6 1%N
                   {| up_name := None; up_description := None;
                      up_price := Some (11 # 2); up_stock := None |} None);
    CatalogCall (DeleteProduct 7 3%N);
    SaleCall {| r_now := 8; r_first := "Bob"; r_last := "Ray"; r_email := "b@x.com";
                r_items := [line 1 2; line 3 1] |};
    SaleCall {| r_now := 9; r_first := "Bob"; r_last := "Ray"; r_email := "b@x.com";
                r_items := [line 1 2] |} ].

(** A name of sixty letters. *)
Definition sixty_letters : string :=
  "abcdefghijklmnopqrstuvwxyzabcdefghijklmnopqrstuvwxyzabcdefgh".

(** A product at the highest price the product schema admits. *)
Definition roastery : product_row :=
  {| p_name := "Roastery"; p_description := None; p_price := 100000000; p_stock := 100;
     p_image_url := None; p_is_active := true; p_created_at := 0; p_updated_at := 0 |}.

Definition showroom : database :=
  {| customers := ∅; products := {[ 9%N := roastery ]}; sales := ∅; sale_items := ∅ |}.

(** * Lemmas *)

(** ** Reasoning about statements that may raise *)

Lemma bind_inr {A B} (m : exn A) (k : A → exn B) (y : B) :
  (x ← m; k x) = inr y ↔ ∃ x, m = inr x ∧ k x = inr y.
Proof.
  destruct m as [e|x]; simpl; split.
  - discriminate.
  - intros (x & Hx & _). discriminate.
  - eauto.
  - intros (x' & [= <-] & Hk). exact Hk.
Qed.

Lemma check_inr (b : bool) (e : sql_error) (u : unit) :
  check b e = inr u ↔ b = true.
Proof. destruct b, u; simpl; split; congruence. Qed.

Lemma mret_inr {A} (x y : A) : (mret x : exn A) = inr y → x = y.
Proof. unfold mret, exn_ret. congruence. Qed.

(** Take apart a hypothesis that says a sequence of statements did not raise. *)
Ltac exn_inv H :=
  repeat match type of H with
  | mbind _ _ = inr _ =>
      let x := fresh "x" in let Hx := fresh "Hx" in
      apply bind_inr in H; destruct H as (x & Hx & H)
  | mret _ = inr _ => apply mret_inr in H
  end.

Lemma varchar_fits (n : nat) (s : string) :
  (String.length s ≤ n)%nat → varchar n s = inr s.
Proof.
  intros Hlen. unfold varchar.
  destruct (Nat.leb_spec (String.length s) n); [done | lia].
Qed.

Lemma decimal_10_2_inr (c v : Z) :
  decimal_10_2 c = inr v ↔ v = c ∧ Z.abs c < 10 ^ 10.
Proof.
  unfold decimal_10_2, raise. destruct (Z.ltb_spec (Z.abs c) (10 ^ 10)); split.
  - intros [= <-]. done.
  - intros [-> _]. done.
  - discriminate.
  - lia.
Qed.

Lemma int4_inr (c v : Z) :
  int4 c = inr v ↔ v = c ∧ - 2 ^ 31 ≤ c < 2 ^ 31.
Proof.
  unfold int4, raise.
  destruct (Z.leb_spec (- 2 ^ 31) c), (Z.ltb_spec c (2 ^ 31)); simpl; split;
    try discriminate; try lia.
  - intros [= <-]. lia.
  - intros [-> _]. done.
Qed.

(** ** Step 1: the customer *)

Lemma select_customer_by_email_Some (email : string) (cs : gmap uuid customer_row) (id : uuid) :
  select_customer_by_email email cs = Some id →
  ∃ c, cs !! id = Some c ∧ c_email c = email.
Proof.
  unfold select_customer_by_email. intros H.
  destruct (List.find _ _) as [[k c]|] eqn:Hf; simplify_eq/=.
  apply find_some in Hf as [Hin Hb].
  apply bool_decide_eq_true in Hb. simpl in Hb.
  exists c. split; [|done].
  apply elem_of_map_to_list. by apply list_elem_of_In.
Qed.

Lemma select_customer_by_email_None (email : string) (cs : gmap uuid customer_row) :
  select_customer_by_email email cs = None →
  ∀ id c, cs !! id = Some c → c_email c ≠ email.
Proof.
  unfold select_customer_by_email. intros H id c Hc Heq.
  destruct (List.find _ _) as [[k c']|] eqn:Hf; [done|].
  apply elem_of_map_to_list, list_elem_of_In in Hc.
  pose proof (find_none _ _ Hf _ Hc) as Hb. simpl in Hb.
  apply bool_decide_eq_false in Hb. done.
Qed.

Lemma uuid_generate_v4_fresh {A} (table : gmap uuid A) :
  table !! uuid_generate_v4 table = None.
Proof. apply not_elem_of_dom. apply is_fresh. Qed.

Lemma resolve_customer_frame now first last email db id db' :
  resolve_customer now first last email db = inr (id, db') →
  products db' = products db ∧ sales db' = sales db ∧
  sale_items db' = sale_items db ∧
  dom (customers db) ⊆ dom (customers db') ∧ id ∈ dom (customers db').
Proof.
  unfold resolve_customer. intros H.
  destruct (select_customer_by_email email (customers db)) as [cid|] eqn:Hsel.
  - exn_inv H. simplify_eq/=.
    apply select_customer_by_email_Some in Hsel as (c & Hc & _).
    repeat split; try done.
    + by rewrite dom_alter_L.
    + rewrite dom_alter_L. apply elem_of_dom. eauto.
  - exn_inv H. simplify_eq/=. repeat split; try done.
    + rewrite dom_insert_L. set_solver.
    + rewrite dom_insert_L. set_solver.
Qed.

(** When the fields fit their columns the step does not raise, and the row
    of the request's e-mail carries the request's names. *)
Lemma resolve_customer_fits now first last email db :
  customer_fits first last email →
  ∃ id db' c, resolve_customer now first last email db = inr (id, db') ∧
    customers db' !! id = Some c ∧
    c_first_name c = first ∧ c_last_name c = last ∧ c_email c = email ∧
    (∀ j, j ≠ id → customers db' !! j = customers db !! j) ∧
    (select_customer_by_email email (customers db) = None →
       customers db !! id = None) ∧
    (∀ id', select_customer_by_email email (customers db) = Some id' → id' = id).
Proof.
  intros (Hf & Hl & He). unfold resolve_customer.
  destruct (select_customer_by_email email (customers db)) as [cid|] eqn:Hsel.
  - rewrite !varchar_fits by done. simpl.
    apply select_customer_by_email_Some in Hsel as (c & Hc & Hmail).
    eexists cid, _, _. split; [reflexivity|]. simpl.
    rewrite lookup_alter_eq, Hc. simpl.
    repeat split; try done.
    + intros j Hj. by rewrite lookup_alter_ne.
    + congruence.
  - rewrite !varchar_fits by done. simpl. rewrite Hsel. simpl.
    eexists _, _, _. split; [reflexivity|]. simpl.
    rewrite lookup_insert_eq. repeat split; try done.
    + intros j Hj. by rewrite lookup_insert_ne.
    + intros _. apply uuid_generate_v4_fresh.
Qed.

Lemma lookup_alter_names now f l (cs : gmap uuid customer_row) i j ci :
  alter (set_customer_names now f l) i cs !! j = Some ci →
  ∃ c0, cs !! j = Some c0 ∧ c_email ci = c_email c0.
Proof.
  destruct (decide (i = j)) as [->|Hne].
  - rewrite lookup_alter_eq. destruct (cs !! j) as [c0|]; [|done].
    intros [= <-]. eauto.
  - rewrite lookup_alter_ne by done. eauto.
Qed.

Lemma resolve_customer_emails_unique now first last email db id db' :
  emails_unique (customers db) →
  resolve_customer now first last email db = inr (id, db') →
  emails_unique (customers db').
Proof.
  unfold resolve_customer. intros Huniq H.
  destruct (select_customer_by_email email (customers db)) as [cid|] eqn:Hsel.
  - exn_inv H. simplify_eq/=.
    intros i j ci cj Hi Hj Hij.
    apply lookup_alter_names in Hi as (ci0 & Hi & Hei).
    apply lookup_alter_names in Hj as (cj0 & Hj & Hej).
    eapply Huniq; eauto. congruence.
  - exn_inv H. simplify_eq/=.
    match goal with Hc : check _ _ = inr _ |- _ =>
      apply check_inr, bool_decide_eq_true in Hc; rename Hc into Hnone end.
    intros i j ci cj Hi Hj Hij.
    destruct (decide (uuid_generate_v4 (customers db) = i)) as [Hi'|Hi'],
             (decide (uuid_generate_v4 (customers db) = j)) as [Hj'|Hj'];
      [congruence| | |].
    + rewrite <- Hi', lookup_insert_eq in Hi. rewrite lookup_insert_ne in Hj by done.
      simplify_eq/=. by destruct (select_customer_by_email_None _ _ Hnone _ _ Hj).
    + rewrite <- Hj', lookup_insert_eq in Hj. rewrite lookup_insert_ne in Hi by done.
      simplify_eq/=. by destruct (select_customer_by_email_None _ _ Hnone _ _ Hi).
    + rewrite lookup_insert_ne in Hi by done. rewrite lookup_insert_ne in Hj by done.
      eapply Huniq; eauto.
Qed.

(** ** Step 2: validation *)

Lemma validate_items_cons_valid ps it rest :
  line_valid ps it → validate_items ps (it :: rest) = validate_items ps rest.
Proof.
  intros (p & Hp & Hact & Hq). simpl. rewrite Hp, Hact. simpl.
  destruct (Z.ltb_spec (p_stock p) (quantity it)); [lia | done].
Qed.

Lemma validate_items_app_valid ps pre rest :
  Forall (line_valid ps) pre →
  validate_items ps (pre ++ rest) = validate_items ps rest.
Proof.
  induction 1 as [|it pre Hit _ IH]; [done|].
  rewrite <- app_comm_cons, validate_items_cons_valid by done. exact IH.
Qed.

Lemma validate_items_None ps items :
  validate_items ps items = None ↔ Forall (line_valid ps) items.
Proof.
  split.
  - induction items as [|it rest IH]; [constructor|]. simpl.
    destruct (ps !! product_id it) as [p|] eqn:Hp; [|done].
    destruct (p_is_active p) eqn:Hact; [|done]. simpl.
    destruct (Z.ltb_spec (p_stock p) (quantity it)); [done|].
    intros Hrest. constructor; [|auto]. exists p. auto.
  - intros Hall. rewrite <- (app_nil_r items), validate_items_app_valid by done.
    done.
Qed.

(** ** Step 4: the items *)

Lemma process_item_inr now sid it db t db' t' :
  process_item now sid it (db, t) = inr (db', t') →
  ∃ p, products db !! product_id it = Some p ∧
    0 < quantity it ∧ 0 ≤ p_price p ∧ 0 ≤ p_stock p - quantity it ∧
    Z.abs (p_price p * quantity it) < 10 ^ 10 ∧
    t' = t + p_price p * quantity it ∧ Z.abs t' < 10 ^ 10 ∧
    sid ∈ dom (sales db) ∧
    customers db' = customers db ∧ sales db' = sales db ∧
    products db' =
      <[product_id it := set_stock now (p_stock p - quantity it) p]> (products db) ∧
    sale_items db' =
      <[uuid_generate_v4 (sale_items db) := new_sale_item now sid it p]> (sale_items db).
Proof.
  unfold process_item. intros H.
  destruct (products db !! product_id it) as [p|] eqn:Hp; [|done].
  apply bind_inr in H as (sub & Hsub & H).
  apply bind_inr in H as (tot & Htot & H).
  apply bind_inr in H as ([] & Hq & H).
  apply bind_inr in H as ([] & Hs & H).
  apply bind_inr in H as ([] & Hu & H).
  apply bind_inr in H as ([] & Hfk & H).
  apply bind_inr in H as (stock & Hstock & H).
  apply bind_inr in H as ([] & Hchk & H).
  apply mret_inr in H.
  apply decimal_10_2_inr in Hsub as [-> Hsub].
  apply decimal_10_2_inr in Htot as [-> Htot].
  apply int4_inr in Hstock as [-> _].
  apply check_inr in Hq, Hs, Hu, Hfk, Hchk.
  apply bool_decide_eq_true in Hfk.
  injection H as <- <-. exists p. simpl.
  repeat split; try done; lia.
Qed.

 
Lemma process_items_frame now sid items db t db' t' :
  process_items now sid items (db, t) = inr (db', t') →
  customers db' = customers db ∧ sales db' = sales db ∧
  dom (products db') = dom (products db).
Proof.
  revert db t. induction items as [|it rest IH]; intros db t H; simpl in H.
  - apply mret_inr in H. by simplify_eq.
  - apply bind_inr in H as ([db1 t1] & H1 & H).
    apply process_item_inr in H1 as (p & Hp & _ & _ & _ & _ & _ & _ & _ & Hc & Hs & Hps & _).
    destruct (IH _ _ H) as (Hc' & Hs' & Hd').
    rewrite Hc', Hs', Hd', Hc, Hs, Hps.
    repeat split; try done.
    apply dom_insert_lookup_L. eauto.
Qed.

(** Stock after the loop: every product has gone down by what the request
    asked of it, its price is what it was, and no stock has become negative. *)
Lemma process_items_stock now sid items db t db' t' pid p :
  process_items now sid items (db, t) = inr (db', t') →
  products db !! pid = Some p →
  ∃ p', products db' !! pid = Some p' ∧
    p_stock p' = p_stock p - requested pid items ∧
    p_price p' = p_price p ∧ p_name p' = p_name p ∧
    p_is_active p' = p_is_active p ∧
    (0 ≤ p_stock p → 0 ≤ p_stock p').
Proof.
  revert db t p. induction items as [|it rest IH]; intros db t p H Hpid; simpl in H.
  - apply mret_inr in H. simplify_eq. exists p. simpl. repeat split; try done. lia.
  - apply bind_inr in H as ([db1 t1] & H1 & H).
    apply process_item_inr in H1
      as (p0 & Hp0 & Hq & _ & Hst & _ & _ & _ & _ & _ & _ & Hps & _).
    destruct (decide (product_id it = pid)) as [Heq|Hne].
    + subst pid. rewrite Hpid in Hp0. injection Hp0 as <-.
      assert (Hl : products db1 !! product_id it =
                   Some (set_stock now (p_stock p - quantity it) p))
        by (rewrite Hps; apply lookup_insert_eq).
      destruct (IH _ _ _ H Hl) as (p' & Hp' & Hs' & Hpr & Hn & Ha & Hnn).
      exists p'. simpl in *. rewrite decide_True by done.
      repeat split; try done; lia.
    + assert (Hl : products db1 !! pid = Some p)
        by (rewrite Hps, lookup_insert_ne; done).
      destruct (IH _ _ _ H Hl) as (p' & Hp' & Hs' & Hpr & Hn & Ha & Hnn).
      exists p'. simpl. rewrite decide_False by done. done.
Qed.

Lemma process_sale_outcome now first last email items db :
  sale_outcome now first last email items db
    (process_sale now first last email items db).1
    (process_sale now first last email items db).2.
Proof.
  unfold process_sale.
  destruct (process_sale_block now first last email items db) as [e|[res db']] eqn:Hblock.
  - simpl. by constructor.
  - simpl. unfold process_sale_block in Hblock.
    apply bind_inr in Hblock as ([cid db1] & Hres & Hblock).
    destruct (resolve_customer_frame _ _ _ _ _ _ _ Hres) as (Hps & _).
    rewrite Hps in Hblock.
    destruct (validate_items (products db) items) as [message|] eqn:Hval.
    + apply mret_inr in Hblock. injection Hblock as <- <-.
      by eapply outcome_rejected.
    + apply bind_inr in Hblock as ([sid db2] & Hins & Hblock).
      apply bind_inr in Hblock as ([db3 total] & Hitems & Hblock).
      apply bind_inr in Hblock as (db4 & Hupd & Hblock).
      apply mret_inr in Hblock. injection Hblock as <- <-.
      by eapply outcome_committed.
Qed.

Lemma insert_sale_inr now cid total db sid db' :
  insert_sale now cid total db = inr (sid, db') →
  sid = uuid_generate_v4 (sales db) ∧ cid ∈ dom (customers db) ∧
  customers db' = customers db ∧ products db' = products db ∧
  sale_items db' = sale_items db ∧
  sales db' = <[sid := {| s_customer_id := cid; s_total := total;
                          s_created_at := now; s_updated_at := now |}]> (sales db).
Proof.
  unfold insert_sale. intros H.
  apply bind_inr in H as ([] & _ & H).
  apply bind_inr in H as ([] & Hfk & H).
  apply check_inr, bool_decide_eq_true in Hfk.
  apply mret_inr in H. injection H as <- <-. done.
Qed.

Lemma update_sale_total_inr now sid total db db' :
  update_sale_total now sid total db = inr db' →
  0 ≤ total ∧
  customers db' = customers db ∧ products db' = products db ∧
  sale_items db' = sale_items db ∧
  sales db' = alter (set_total now total) sid (sales db).
Proof.
  unfold update_sale_total. intros H.
  apply bind_inr in H as ([] & Hchk & H).
  apply check_inr in Hchk. apply mret_inr in H. subst db'. simpl.
  repeat split; try done. lia.
Qed.

(** When step 1 does not raise, the first line that fails a check decides
    what the call returns. *)
Lemma process_sale_rejects now first last email items db cid db1 message :
  resolve_customer now first last email db = inr (cid, db1) →
  validate_items (products db) items = Some message →
  process_sale now first last email items db = (Failure message, db1).
Proof.
  intros Hres Hval.
  unfold process_sale, process_sale_block. rewrite Hres. simpl.
  destruct (resolve_customer_frame _ _ _ _ _ _ _ Hres) as (-> & _).
  by rewrite Hval.
Qed.

(** ** What a rejected request leaves behind *)

(** A request that fails validation changes no product, sale or sale item,
    and leaves the customer of step 1 in the table. *)
Lemma rejected_sale_effects now first last email items db message :
  customer_fits first last email →
  validate_items (products db) items = Some message →
  ∃ id c, customers (process_sale now first last email items db).2 !! id = Some c ∧
    c_first_name c = first ∧ c_last_name c = last ∧ c_email c = email ∧
    c_updated_at c = now ∧
    products (process_sale now first last email items db).2 = products db ∧
    sales (process_sale now first last email items db).2 = sales db ∧
    sale_items (process_sale now first last email items db).2 = sale_items db.
Proof.
  intros Hfit Hval.
  destruct (resolve_customer_fits now first last email db Hfit)
    as (id & db1 & c & Hres & Hc & Hf & Hl & He & _).
  destruct (resolve_customer_frame _ _ _ _ _ _ _ Hres) as (Hps & Hs & Hsi & _).
  assert (Hupd : c_updated_at c = now).
  { revert Hres Hc. unfold resolve_customer.
    destruct (select_customer_by_email email (customers db)) as [cid|] eqn:Hsel;
      intros Hres Hc; exn_inv Hres; simplify_eq/=.
    - rewrite lookup_alter_eq in Hc.
      destruct (customers db !! id); by simplify_eq/=.
    - rewrite lookup_insert_eq in Hc. by simplify_eq/=. }
  unfold process_sale, process_sale_block. rewrite Hres. simpl.
  rewrite Hps, Hval. simpl. exists id, c. done.
Qed.

(** ** The customer of a committed sale *)

Lemma committed_customers now first last email items db sid cid total db' :
  process_sale now first last email items db = (Success sid cid total, db') →
  ∃ db1, resolve_customer now first last email db = inr (cid, db1) ∧
    customers db' = customers db1.
Proof.
  intros H. pose proof (process_sale_outcome now first last email items db) as Ho.
  rewrite H in Ho. simpl in Ho.
  inversion Ho as [| |cid' db1 sid' db2 db3 total' db4 Hres Hval Hins Hitems Hupd]; subst.
  exists db1. split; [done|].
  apply insert_sale_inr in Hins as (_ & _ & Hc2 & _).
  apply process_items_frame in Hitems as (Hc3 & _).
  apply update_sale_total_inr in Hupd as (_ & Hc4 & _).
  congruence.
Qed.

Lemma process_sale_keeps_customers now first last email items db :
  dom (customers db) ⊆ dom (customers (process_sale now first last email items db).2).
Proof.
  destruct (process_sale_outcome now first last email items db)
    as [e _|cid db1 message Hres _|cid db1 sid db2 db3 total db4 Hres _ Hins Hitems Hupd].
  - done.
  - by destruct (resolve_customer_frame _ _ _ _ _ _ _ Hres) as (_ & _ & _ & Hdom & _).
  - destruct (resolve_customer_frame _ _ _ _ _ _ _ Hres) as (_ & _ & _ & Hdom & _).
    apply insert_sale_inr in Hins as (_ & _ & Hc2 & _).
    apply process_items_frame in Hitems as (Hc3 & _).
    apply update_sale_total_inr in Hupd as (_ & Hc4 & _).
    rewrite Hc4, Hc3, Hc2. done.
Qed.

Lemma resolve_customer_keeps_email now first last email db id db' j c :
  resolve_customer now first last email db = inr (id, db') →
  customers db !! j = Some c →
  ∃ c', customers db' !! j = Some c' ∧ c_email c' = c_email c.
Proof.
  unfold resolve_customer. intros H Hj.
  destruct (select_customer_by_email email (customers db)) as [cid|] eqn:Hsel;
    exn_inv H; injection H as <- <-; simpl.
  - destruct (decide (cid = j)) as [->|Hne].
    + rewrite lookup_alter_eq, Hj. simpl. eauto.
    + rewrite lookup_alter_ne by done. eauto.
  - rewrite lookup_insert_ne; [eauto|]. intros <-.
    rewrite uuid_generate_v4_fresh in Hj. done.
Qed.

(** What any call does to the [customers] table. *)
Lemma process_sale_customers now first last email items db :
  customers (process_sale now first last email items db).2 = customers db ∨
  ∃ id db1, resolve_customer now first last email db = inr (id, db1) ∧
            customers (process_sale now first last email items db).2 = customers db1.
Proof.
  destruct (process_sale_outcome now first last email items db)
    as [e _|cid db1 message Hres _|cid db1 sid db2 db3 total db4 Hres _ Hins Hitems Hupd].
  - by left.
  - right. eauto.
  - right. exists cid, db1. split; [done|].
    apply insert_sale_inr in Hins as (_ & _ & Hc2 & _).
    apply process_items_frame in Hitems as (Hc3 & _).
    apply update_sale_total_inr in Hupd as (_ & Hc4 & _).
    congruence.
Qed.

Lemma run_requests_customers (rs : list sale_request) (db : database) :
  emails_unique (customers db) →
  emails_unique (customers (run_requests rs db)) ∧
  ∀ j c, customers db !! j = Some c →
    ∃ c', customers (run_requests rs db) !! j = Some c' ∧ c_email c' = c_email c.
Proof.
  revert db. induction rs as [|r rest IH]; intros db Huniq; simpl.
  - split; [done|]. eauto.
  - unfold run_request at 1 2.
    destruct (process_sale_customers (r_now r) (r_first r) (r_last r) (r_email r)
                (r_items r) db) as [Hsame|(id & db1 & Hres & Hsame)].
    + destruct (IH (run_request r db).2) as (Hu & Hkeep).
      { unfold run_request. by rewrite Hsame. }
      split; [exact Hu|]. intros j c Hj. apply Hkeep.
      unfold run_request. by rewrite Hsame.
    + destruct (IH (run_request r db).2) as (Hu & Hkeep).
      { unfold run_request. rewrite Hsame.
        eapply resolve_customer_emails_unique; eauto. }
      split; [exact Hu|]. intros j c Hj.
      destruct (resolve_customer_keeps_email _ _ _ _ _ _ _ _ _ Hres Hj)
        as (c1 & Hc1 & He1).
      destruct (Hkeep j c1) as (c' & Hc' & He').
      { unfold run_request. by rewrite Hsame. }
      exists c'. split; [done | congruence].
Qed.

(** ** Stock *)

Lemma run_request_stock (r : sale_request) (db : database) (pid : uuid) (p : product_row) :
  products db !! pid = Some p →
  ∃ p', products (run_request r db).2 !! pid = Some p' ∧
    p_stock p' =
      p_stock p - (if committed (run_request r db).1 then requested pid (r_items r) else 0) ∧
    (0 ≤ p_stock p → 0 ≤ p_stock p').
Proof.
  intros Hp. unfold run_request.
  destruct (process_sale_outcome (r_now r) (r_first r) (r_last r) (r_email r) (r_items r) db)
    as [e _|cid db1 message Hres _|cid db1 sid db2 db3 total db4 Hres _ Hins Hitems Hupd];
    simpl.
  - exists p. repeat split; [done | lia | done].
  - destruct (resolve_customer_frame _ _ _ _ _ _ _ Hres) as (Hps & _).
    exists p. rewrite Hps. repeat split; [done | lia | done].
  - destruct (resolve_customer_frame _ _ _ _ _ _ _ Hres) as (Hps1 & _).
    apply insert_sale_inr in Hins as (_ & _ & _ & Hps2 & _).
    apply update_sale_total_inr in Hupd as (_ & _ & Hps4 & _).
    assert (Hp2 : products db2 !! pid = Some p) by (rewrite Hps2, Hps1; done).
    destruct (process_items_stock _ _ _ _ _ _ _ _ _ Hitems Hp2)
      as (p' & Hp' & Hst & _ & _ & _ & Hnn).
    exists p'. rewrite Hps4. done.
Qed.

Lemma quantity_sold_insert (pid i : uuid) (row : sale_item_row)
    (rows : gmap uuid sale_item_row) :
  rows !! i = None →
  quantity_sold pid (<[i := row]> rows) =
    (if decide (si_product_id row = pid) then si_quantity row else 0)
    + quantity_sold pid rows.
Proof.
  intros Hi. unfold quantity_sold.
  rewrite map_fold_insert_L; [| |done].
  - destruct (decide (si_product_id row = pid)); lia.
  - intros j1 j2 z1 z2 y _ _ _.
    destruct (decide (si_product_id z1 = pid)), (decide (si_product_id z2 = pid)); lia.
Qed.

Lemma process_items_sold now sid items db t db' t' pid :
  process_items now sid items (db, t) = inr (db', t') →
  quantity_sold pid (sale_items db') =
    quantity_sold pid (sale_items db) + requested pid items.
Proof.
  revert db t. induction items as [|it rest IH]; intros db t H; simpl in H.
  - apply mret_inr in H. simplify_eq. simpl. lia.
  - apply bind_inr in H as ([db1 t1] & H1 & H).
    apply process_item_inr in H1
      as (p0 & _ & _ & _ & _ & _ & _ & _ & _ & _ & _ & _ & Hrows).
    rewrite (IH _ _ H), Hrows, quantity_sold_insert by apply uuid_generate_v4_fresh.
    simpl. destruct (decide (product_id it = pid)); lia.
Qed.

Lemma run_request_sold (r : sale_request) (db : database) (pid : uuid) :
  quantity_sold pid (sale_items (run_request r db).2) =
    quantity_sold pid (sale_items db)
    + (if committed (run_request r db).1 then requested pid (r_items r) else 0).
Proof.
  unfold run_request.
  destruct (process_sale_outcome (r_now r) (r_first r) (r_last r) (r_email r) (r_items r) db)
    as [e _|cid db1 message Hres _|cid db1 sid db2 db3 total db4 Hres _ Hins Hitems Hupd];
    simpl.
  - lia.
  - destruct (resolve_customer_frame _ _ _ _ _ _ _ Hres) as (_ & _ & -> & _). lia.
  - destruct (resolve_customer_frame _ _ _ _ _ _ _ Hres) as (_ & _ & Hsi1 & _).
    apply insert_sale_inr in Hins as (_ & _ & _ & _ & Hsi2 & _).
    apply update_sale_total_inr in Hupd as (_ & _ & _ & Hsi4 & _).
    rewrite Hsi4, (process_items_sold _ _ _ _ _ _ _ pid Hitems), Hsi2, Hsi1. done.
Qed.

(** ** Totals *)

Lemma sale_subtotals_insert (sid i : uuid) (row : sale_item_row)
    (rows : gmap uuid sale_item_row) :
  rows !! i = None →
  sale_subtotals sid (<[i := row]> rows) =
    (if decide (si_sale_id row = sid) then si_subtotal row else 0)
    + sale_subtotals sid rows.
Proof.
  intros Hi. unfold sale_subtotals.
  rewrite map_fold_insert_L; [| |done].
  - destruct (decide (si_sale_id row = sid)); lia.
  - intros j1 j2 z1 z2 y _ _ _.
    destruct (decide (si_sale_id z1 = sid)), (decide (si_sale_id z2 = sid)); lia.
Qed.

Lemma sale_subtotals_none (sid : uuid) (rows : gmap uuid sale_item_row) :
  (∀ i row, rows !! i = Some row → si_sale_id row ≠ sid) →
  sale_subtotals sid rows = 0.
Proof.
  induction rows as [|i row rows Hi IH] using map_ind; intros Hrows.
  - reflexivity.
  - rewrite sale_subtotals_insert by done.
    rewrite decide_False by (apply (Hrows i); apply lookup_insert_eq).
    rewrite IH; [done|].
    intros j rj Hj. apply (Hrows j). rewrite lookup_insert_ne; [done|].
    intros ->. congruence.
Qed.

Lemma order_value_ext (ps1 ps2 : gmap uuid product_row) (items : list sale_item_input) :
  (∀ pid, p_price <$> ps1 !! pid = p_price <$> ps2 !! pid) →
  order_value ps1 items = order_value ps2 items.
Proof.
  intros Hext. induction items as [|it rest IH]; [done|]. simpl. rewrite IH.
  specialize (Hext (product_id it)).
  destruct (ps1 !! product_id it), (ps2 !! product_id it); simplify_eq/=; congruence.
Qed.

Lemma process_items_total now sid items db t db' t' :
  process_items now sid items (db, t) = inr (db', t') →
  t' = t + order_value (products db) items ∧
  (0 ≤ t → 0 ≤ t' < 10 ^ 10 ∨ items = []) ∧
  sale_subtotals sid (sale_items db') =
    sale_subtotals sid (sale_items db) + order_value (products db) items ∧
  (∀ i row, sale_items db' !! i = Some row →
     sale_items db !! i = Some row ∨ priced_at (products db) sid row).
Proof.
  revert db t. induction items as [|it rest IH]; intros db t H; simpl in H.
  - apply mret_inr in H. simplify_eq. simpl. repeat split; try lia; auto.
  - apply bind_inr in H as ([db1 t1] & H1 & H).
    apply process_item_inr in H1
      as (p & Hp & Hq & Hpr & _ & _ & Ht1 & Habs & _ & _ & _ & Hps & Hrows).
    destruct (IH _ _ H) as (Ht' & Hrange & Hsub & Hnew).
    assert (Hext : ∀ pid, p_price <$> products db1 !! pid = p_price <$> products db !! pid).
    { intros pid. rewrite Hps. destruct (decide (product_id it = pid)) as [<-|Hne].
      - by rewrite lookup_insert_eq, Hp.
      - by rewrite lookup_insert_ne. }
    rewrite (order_value_ext _ _ rest Hext) in Ht', Hsub.
    simpl. rewrite Hp. simpl. repeat split.
    + lia.
    + intros Ht. left. assert (0 ≤ t1) by nia.
      destruct (Hrange H0) as [?| ->]; [lia|].
      simpl in Ht'. lia.
    + rewrite Hsub, Hrows, sale_subtotals_insert by apply uuid_generate_v4_fresh.
      simpl. rewrite decide_True by done. lia.
    + intros i row Hi. destruct (Hnew i row Hi) as [Hold|(Hs & Hq' & Hm & p' & Hp' & Hu)].
      * rewrite Hrows in Hold.
        destruct (decide (uuid_generate_v4 (sale_items db) = i)) as [<-|Hne].
        -- rewrite lookup_insert_eq in Hold. injection Hold as <-. right.
           unfold priced_at. simpl. repeat split; [done | lia | eauto].
        -- rewrite lookup_insert_ne in Hold by done. by left.
      * right. repeat split; try done.
        specialize (Hext (si_product_id row)). rewrite Hp' in Hext. simpl in Hext.
        destruct (products db !! si_product_id row) as [p0|]; [|done].
        exists p0. split; [done|]. simpl in Hext. congruence.
Qed.

Lemma process_items_keeps_rows now sid items db t db' t' i row :
  process_items now sid items (db, t) = inr (db', t') →
  sale_items db !! i = Some row → sale_items db' !! i = Some row.
Proof.
  revert db t. induction items as [|it rest IH]; intros db t H Hi; simpl in H.
  - apply mret_inr in H. by simplify_eq.
  - apply bind_inr in H as ([d1 t1] & H1 & H).
    apply process_item_inr in H1
      as (p & _ & _ & _ & _ & _ & _ & _ & _ & _ & _ & _ & Hrows).
    eapply IH; [exact H|]. rewrite Hrows.
    rewrite lookup_insert_ne; [done|]. intros <-.
    rewrite uuid_generate_v4_fresh in Hi. done.
Qed.

(** What a committed call has stored. *)
Lemma process_sale_committed now first last email items db sid cid total db' :
  sale_items_reference_sales db →
  process_sale now first last email items db = (Success sid cid total, db') →
  sales db !! sid = None ∧
  (∃ row, sales db' !! sid = Some row ∧ s_total row = total ∧ s_customer_id row = cid) ∧
  (∀ j, j ≠ sid → sales db' !! j = sales db !! j) ∧
  sale_subtotals sid (sale_items db') = total ∧
  total = order_value (products db) items ∧ 0 ≤ total < 10 ^ 10 ∧
  (∀ i row, sale_items db !! i = Some row → sale_items db' !! i = Some row) ∧
  (∀ i row, sale_items db' !! i = Some row → si_sale_id row = sid →
     priced_at (products db) sid row).
Proof.
  intros Hfk H. pose proof (process_sale_outcome now first last email items db) as Ho.
  rewrite H in Ho. simpl in Ho.
  inversion Ho as [| |cid' db1 sid' db2 db3 total' db4 Hres Hval Hins Hitems Hupd]; subst.
  destruct (resolve_customer_frame _ _ _ _ _ _ _ Hres) as (Hps1 & Hs1 & Hsi1 & _).
  apply insert_sale_inr in Hins as (Hsid & _ & _ & Hps2 & Hsi2 & Hs2).
  destruct (process_items_frame _ _ _ _ _ _ _ Hitems) as (_ & Hs3 & _).
  destruct (process_items_total _ _ _ _ _ _ _ Hitems) as (Ht & Hrange & Hsub & Hnew).
  apply update_sale_total_inr in Hupd as (Htot & _ & _ & Hsi4 & Hs4).
  assert (Hfresh : sales db !! sid = None).
  { rewrite Hsid, Hs1. apply uuid_generate_v4_fresh. }
  assert (Hnone : ∀ i row, sale_items db !! i = Some row → si_sale_id row ≠ sid).
  { intros i row Hi Heq. apply Hfk in Hi. rewrite Heq in Hi.
    apply elem_of_dom in Hi as [? Hi]. congruence. }
  rewrite Hps2, Hps1 in Ht, Hsub, Hnew. rewrite Hsi2, Hsi1 in Hsub, Hnew.
  rewrite (sale_subtotals_none sid (sale_items db) Hnone) in Hsub.
  split_and!.
  - exact Hfresh.
  - rewrite Hs4, Hs3, Hs2, lookup_alter_eq, lookup_insert_eq. simpl.
    eexists. split; [reflexivity|]. done.
  - intros j Hj. rewrite Hs4, Hs3, Hs2, lookup_alter_ne, lookup_insert_ne, Hs1; done.
  - rewrite Hsi4. lia.
  - lia.
  - lia.
  - destruct (Hrange ltac:(lia)) as [?| ->]; [lia|]. simpl in Ht. lia.
  - intros i row Hi. rewrite Hsi4.
    eapply process_items_keeps_rows; [exact Hitems|]. simpl. by rewrite Hsi2, Hsi1.
  - intros i row Hi Hsale. rewrite Hsi4 in Hi.
    destruct (Hnew i row Hi) as [Hold|Hp]; [|done].
    by destruct (Hnone _ _ Hold).
Qed.

(** ** The service in front of the function *)

Lemma createSale_inr uuid_in t now saleData db out db' calls :
  createSale uuid_in t now saleData db = (inr out, db', calls) →
  ∃ its, t = Reachable ∧ items_in uuid_in (items saleData) = Some its ∧
    process_sale now (firstName saleData) (lastName saleData) (email saleData) its db =
      (Success (saleId out) (customerId out) (total out), db').
Proof.
  unfold createSale, supabase_rpc. intros H.
  destruct t; [|simpl in H; discriminate H].
  simpl in H.
  destruct (items_in uuid_in (items saleData)) as [its|] eqn:Hits;
    [|discriminate H].
  destruct (process_sale now (firstName saleData) (lastName saleData) (email saleData)
              its db) as [res db1] eqn:Hps.
  simpl in H. destruct res as [sid cid v|msg]; [|discriminate H].
  injection H as <- <- _. exists its. done.
Qed.

(** ** One product on several lines *)

(** Validation passing and more being asked of a product than it has: the
    call cannot commit, whatever it raises. *)
Lemma oversold_request_fails now first last email items db pid p :
  validate_items (products db) items = None →
  products db !! pid = Some p → 0 ≤ p_stock p →
  p_stock p < requested pid items →
  ∃ e, process_sale_block now first last email items db = inl e ∧
       process_sale now first last email items db =
         (Failure ("Transaction failed: " +:+ sqlerrm e), db).
Proof.
  intros Hval Hp Hnn Hover.
  pose proof (run_request_stock
    {| r_now := now; r_first := first; r_last := last; r_email := email;
       r_items := items |} db pid p Hp) as (p' & _ & Hst & Hnn').
  unfold run_request in Hst. simpl in Hst. specialize (Hnn' Hnn).
  unfold process_sale in *.
  destruct (process_sale_block now first last email items db) as [e|[res db']] eqn:Hb.
  - by exists e.
  - exfalso. pose proof (process_sale_outcome now first last email items db) as Ho.
    unfold process_sale in Ho. rewrite Hb in Ho. simpl in Ho, Hst.
    inversion Ho as [|? ? ? ? Hval'|]; subst; simpl in Hst.
    + congruence.
    + congruence.
    + lia.
Qed.

Lemma process_item_checked now sid it db t p :
  products db !! product_id it = Some p →
  0 < p_price p → 0 ≤ p_stock p < 2 ^ 31 →
  0 < quantity it < 2 ^ 31 →
  sid ∈ dom (sales db) →
  0 ≤ t → t + p_price p * quantity it < 10 ^ 10 →
  process_item now sid it (db, t) =
    if 0 <=? p_stock p - quantity it then
      inr ({| customers := customers db;
              products := <[product_id it :=
                              set_stock now (p_stock p - quantity it) p]> (products db);
              sales := sales db;
              sale_items := <[uuid_generate_v4 (sale_items db) :=
                                new_sale_item now sid it p]> (sale_items db) |},
           t + p_price p * quantity it)
    else inl (check_violation "products" "products_stock_check").
Proof.
  intros Hp Hprice Hstock Hq Hsid Ht Hbound.
  assert (Hsub : 0 < p_price p * quantity it) by nia.
  unfold process_item. rewrite Hp. unfold decimal_10_2, int4.
  destruct (Z.ltb_spec (Z.abs (p_price p * quantity it)) (10 ^ 10)); [|lia].
  simpl.
  destruct (Z.ltb_spec (Z.abs (t + p_price p * quantity it)) (10 ^ 10)); [|lia].
  simpl.
  destruct (Z.ltb_spec 0 (quantity it)); [|lia]. simpl.
  destruct (Z.leb_spec 0 (p_price p * quantity it)); [|lia]. simpl.
  destruct (Z.leb_spec 0 (p_price p)); [|lia]. simpl.
  rewrite bool_decide_eq_true_2 by done. simpl.
  destruct (Z.leb_spec (- 2 ^ 31) (p_stock p - quantity it)); [|lia].
  destruct (Z.ltb_spec (p_stock p - quantity it) (2 ^ 31)); [|lia].
  simpl. destruct (0 <=? p_stock p - quantity it); reflexivity.
Qed.

(** With the constraints of the table holding, positive quantities and no
    overflow of the total, the only thing the loop over the items can raise
    is the stock check. *)
Lemma process_items_raises_stock_check now sid items db t e :
  products_ok (products db) →
  Forall (λ it, 0 < quantity it < 2 ^ 31 ∧ is_Some (products db !! product_id it)) items →
  sid ∈ dom (sales db) →
  0 ≤ t → t + order_value (products db) items < 10 ^ 10 →
  process_items now sid items (db, t) = inl e →
  e = check_violation "products" "products_stock_check".
Proof.
  revert db t. induction items as [|it rest IH]; intros db t Hok Hall Hsid Ht Hbound H.
  - discriminate H.
  - apply Forall_cons in Hall as [(Hq & p & Hp) Hrest].
    destruct (Hok _ _ Hp) as (Hprice & Hstock).
    assert (Hrest_nn : 0 ≤ order_value (products db) rest).
    { clear -Hok Hrest. induction rest as [|i r IHr]; simpl; [lia|].
      apply Forall_cons in Hrest as [(Hq & p & Hp) Hr].
      rewrite Hp. simpl. destruct (Hok _ _ Hp). specialize (IHr Hr). nia. }
    simpl in Hbound. rewrite Hp in Hbound. simpl in Hbound.
    simpl in H. rewrite (process_item_checked now sid it db t p) in H by (done || nia).
    destruct (Z.leb_spec 0 (p_stock p - quantity it)) as [Hpass|Hfail].
    + simpl in H.
      assert (Hext : ∀ k, p_price <$>
                 (<[product_id it := set_stock now (p_stock p - quantity it) p]>
                    (products db)) !! k = p_price <$> products db !! k).
      { intros k. destruct (decide (product_id it = k)) as [<-|Hne].
        - by rewrite lookup_insert_eq, Hp.
        - by rewrite lookup_insert_ne. }
      eapply IH; [| | | | |exact H]; simpl.
      * intros k pk Hk. destruct (decide (product_id it = k)) as [<-|Hne].
        -- rewrite lookup_insert_eq in Hk. injection Hk as <-. simpl. lia.
        -- rewrite lookup_insert_ne in Hk by done. eauto.
      * eapply Forall_impl; [exact Hrest|]. intros i (Hqi & Hi). split; [done|].
        destruct (decide (product_id it = product_id i)) as [<-|Hne].
        -- rewrite lookup_insert_eq. eauto.
        -- by rewrite lookup_insert_ne.
      * done.
      * nia.
      * rewrite (order_value_ext _ _ rest Hext). lia.
    + simpl in H. congruence.
Qed.

(** ** What the caller can tell from a rejection *)

Lemma validate_items_message_nonempty ps items msg :
  validate_items ps items = Some msg → msg ≠ "".
Proof.
  induction items as [|it rest IH]; simpl; [done|].
  destruct (ps !! product_id it) as [p|]; [|by intros [= <-]].
  destruct (negb (p_is_active p)); [by intros [= <-]|].
  destruct (p_stock p <? quantity it); [by intros [= <-]|]. exact IH.
Qed.

Lemma process_sale_failure_message now first last email items db msg :
  (process_sale now first last email items db).1 = Failure msg →
  msg ≠ "" ∧
  ((∃ e, process_sale_block now first last email items db = inl e ∧
         msg = "Transaction failed: " +:+ sqlerrm e) ∨
   validate_items (products db) items = Some msg).
Proof.
  intros H. pose proof (process_sale_outcome now first last email items db) as Ho.
  rewrite H in Ho.
  inversion Ho as [e He|cid db1 message Hres Hval|]; subst.
  - split; [done|]. left. eauto.
  - split; [by eapply validate_items_message_nonempty|]. by right.
Qed.

Lemma prefix_app (p s : string) : String.prefix p (p +:+ s) = true.
Proof.
  induction p as [|a p IH]; simpl.
  - by destruct s.
  - by destruct (Ascii.ascii_dec a a).
Qed.

Lemma kind_of_message_not_found (s : string) :
  kind_of_message ("Product not found: " +:+ s) = ProductNotFound.
Proof. unfold kind_of_message. by rewrite prefix_app. Qed.

Lemma kind_of_message_not_active (s : string) :
  kind_of_message ("Product is not active: " +:+ s) = ProductInactive.
Proof.
  unfold kind_of_message.
  change (String.prefix "Product not found: " ("Product is not active: " +:+ s))
    with false.
  by rewrite prefix_app.
Qed.

Lemma kind_of_message_insufficient (s : string) :
  kind_of_message ("Insufficient stock for product: " +:+ s) = InsufficientStock.
Proof.
  unfold kind_of_message.
  change (String.prefix "Product not found: " ("Insufficient stock for product: " +:+ s))
    with false.
  change (String.prefix "Product is not active: "
            ("Insufficient stock for product: " +:+ s)) with false.
  by rewrite prefix_app.
Qed.

Lemma kind_of_message_transaction (s : string) :
  kind_of_message ("Transaction failed: " +:+ s) = SystemFailure.
Proof. reflexivity. Qed.

(** The message of the check that rejects the items begins with the words
    of that check. *)
Lemma validate_items_kind ps items msg :
  validate_items ps items = Some msg →
  failing_rule ps items = Some (kind_of_message msg).
Proof.
  induction items as [|it rest IH]; simpl; [done|].
  destruct (ps !! product_id it) as [p|].
  - destruct (negb (p_is_active p)).
    + intros [= <-]. by rewrite kind_of_message_not_active.
    + destruct (p_stock p <? quantity it); [|exact IH].
      intros [= <-]. by rewrite kind_of_message_insufficient.
  - intros [= <-]. by rewrite kind_of_message_not_found.
Qed.

(** The kind of a failure of [process_sale] is the one its message begins
    with. *)
Lemma process_sale_failure_kind now first last email items db msg :
  (process_sale now first last email items db).1 = Failure msg →
  failure_kind_of now first last email items db = Some (kind_of_message msg).
Proof.
  intros H. pose proof (process_sale_outcome now first last email items db) as Ho.
  rewrite H in Ho. unfold failure_kind_of.
  inversion Ho as [e He|cid db1 message Hres Hval|]; subst.
  - rewrite He. by rewrite kind_of_message_transaction.
  - unfold process_sale_block. rewrite Hres. simpl.
    destruct (resolve_customer_frame _ _ _ _ _ _ _ Hres) as (-> & _).
    rewrite Hval. simpl. by apply validate_items_kind.
Qed.

(** The three business rules and a constraint violation caught by the
    handler give rejections that differ in their message only. *)
Lemma rejections_share_one_code :
  ∃ e1 e2 e3 e4,
    (createSale canonical_uuid Reachable 5 unknown_product_order shop).1.1 = inl e1 ∧
    (createSale canonical_uuid Reachable 5 inactive_product_order shop).1.1 = inl e2 ∧
    (createSale canonical_uuid Reachable 5 short_stock_order shop).1.1 = inl e3 ∧
    (createSale canonical_uuid Reachable 5 split_lines_order shop).1.1 = inl e4 ∧
    code e1 = "BAD_REQUEST" ∧
    machine_part e1 = machine_part e2 ∧ machine_part e2 = machine_part e3 ∧
    machine_part e3 = machine_part e4.
Proof.
  do 4 eexists. vm_compute. repeat split; reflexivity.
Qed.

(** ** Requests the schema turns away *)

Lemma quantity_issues_nil path n :
  quantity_issues path n = [] → quantity_acceptable n.
Proof.
  unfold quantity_issues, issue_unless.
  destruct n as [|neg|q]; [done|done|].
  destruct (is_integer (JFinite q)) eqn:Hint; [|done].
  destruct (is_positive (JFinite q)) eqn:Hpos; [|done].
  destruct (at_most 100 (JFinite q)) eqn:Hmax; [|done].
  intros _. unfold is_integer, is_positive, at_most in Hint, Hpos, Hmax.
  apply Pos.eqb_eq in Hint. apply Z.ltb_lt in Hpos. apply Qle_bool_iff in Hmax.
  assert (Heq : Qeq q (inject_Z (Qnum (Qred q)))).
  { rewrite <- (Qred_correct q) at 1.
    destruct (Qred q) as [z d]. simpl in *. subst d. reflexivity. }
  exists (Qnum (Qred q)). split; [eauto|].
  unfold Qeq in Heq. unfold Qle in Hmax. simpl in Heq, Hmax.
  pose proof (Pos2Z.is_pos (Qden q)). nia.
Qed.

Lemma createSaleSchema_issues_nonempty is_uuid is_email (b : raw_sale) :
  raw_items b = [] ∨ (50 < length (raw_items b))%nat ∨
  (∃ it, it ∈ raw_items b ∧ ¬ quantity_acceptable (raw_quantity it)) →
  createSaleSchema_issues is_uuid is_email b ≠ [].
Proof.
  intros H Hnil. unfold createSaleSchema_issues in Hnil.
  repeat (apply app_eq_nil in Hnil as [? Hnil]).
  destruct H as [Hempty|[Hmany|(it & Hin & Hbad)]].
  - rewrite Hempty in *. discriminate.
  - destruct (Nat.leb_spec (length (raw_items b)) 50); [lia|]. discriminate.
  - apply list_elem_of_lookup_1 in Hin as [i Hi].
    apply (join_nil_1 (imap (saleItemSchema_issues is_uuid) (raw_items b))) in Hnil.
    rewrite Forall_forall in Hnil.
    assert (Hq : saleItemSchema_issues is_uuid i it = []).
    { apply Hnil.
      apply (elem_of_lookup_imap_2 (saleItemSchema_issues is_uuid) _ _ _ Hi). }
    unfold saleItemSchema_issues in Hq.
    apply app_eq_nil in Hq as [_ Hq]. apply quantity_issues_nil in Hq. done.
Qed.

(** ** Sales and the catalog *)

Lemma apply_catalog_op_frame (op : catalog_op) (db : database) :
  sales (apply_catalog_op op db) = sales db ∧
  sale_items (apply_catalog_op op db) = sale_items db ∧
  customers (apply_catalog_op op db) = customers db.
Proof.
  destruct op as [now d f|now id d f|now id]; simpl.
  - unfold createProduct.
    destruct f as [[u|]|]; simpl; try done;
      destruct (products_row_checks _); done.
  - unfold updateProduct. destruct (getProductById id db) as [e|old]; [done|].
    destruct f as [[u|]|]; simpl; try done;
      destruct (products_row_checks _); done.
  - unfold deleteProduct. destruct (getProductById id db); done.
Qed.

(** ** The last unit, asked for twice *)

(** Two requests for the one unit of a product, one after the other: the
    first commits, the second is rejected for insufficient stock. *)
Example last_unit_sold_once :
  (process_sale 5 "Ann" "Lee" "a@x.com" [line 3 1] shop).1 = Success 0 1 300 ∧
  (process_sale 6 "Bob" "Ray" "b@x.com" [line 3 1]
     (process_sale 5 "Ann" "Lee" "a@x.com" [line 3 1] shop).2).1 =
    Failure "Insufficient stock for product: Decaf (available: 0, requested: 1)".
Proof. vm_compute. split; reflexivity. Qed.

(** ** Later calls and the sales already stored *)

Lemma process_items_other_sale now sid items db t db' t' s0 :
  s0 ≠ sid →
  process_items now sid items (db, t) = inr (db', t') →
  sale_subtotals s0 (sale_items db') = sale_subtotals s0 (sale_items db).
Proof.
  intros Hne. revert db t. induction items as [|it rest IH]; intros db t H; simpl in H.
  - apply mret_inr in H. by simplify_eq.
  - apply bind_inr in H as ([d1 t1] & H1 & H).
    apply process_item_inr in H1
      as (p & _ & _ & _ & _ & _ & _ & _ & _ & _ & _ & _ & Hrows).
    rewrite (IH _ _ H), Hrows, sale_subtotals_insert by apply uuid_generate_v4_fresh.
    simpl. rewrite decide_False by done. lia.
Qed.

(** A call leaves every sale that is already stored as it is: its row, its
    items, and the sum of their subtotals. *)
Lemma process_sale_keeps_sales now first last email items db :
  sale_items_reference_sales db →
  sale_items_reference_sales (process_sale now first last email items db).2 ∧
  ∀ sid row, sales db !! sid = Some row →
    sales (process_sale now first last email items db).2 !! sid = Some row ∧
    sale_subtotals sid (sale_items (process_sale now first last email items db).2) =
      sale_subtotals sid (sale_items db) ∧
    (∀ i it, sale_items (process_sale now first last email items db).2 !! i = Some it →
       si_sale_id it = sid → sale_items db !! i = Some it).
Proof.
  intros Hfk.
  destruct (process_sale_outcome now first last email items db)
    as [e _|cid db1 message Hres _|cid db1 sid' db2 db3 total db4 Hres _ Hins Hitems Hupd].
  - split; [done|]. eauto.
  - destruct (resolve_customer_frame _ _ _ _ _ _ _ Hres) as (_ & Hs & Hsi & _).
    split.
    + intros i row Hi. rewrite Hs. apply (Hfk i). by rewrite <- Hsi.
    + intros sid row Hrow. rewrite Hs, Hsi. eauto.
  - destruct (resolve_customer_frame _ _ _ _ _ _ _ Hres) as (_ & Hs1 & Hsi1 & _).
    apply insert_sale_inr in Hins as (Hsid & _ & _ & _ & Hsi2 & Hs2).
    destruct (process_items_frame _ _ _ _ _ _ _ Hitems) as (_ & Hs3 & _).
    destruct (process_items_total _ _ _ _ _ _ _ Hitems) as (_ & _ & _ & Hnew).
    pose proof (update_sale_total_inr _ _ _ _ _ Hupd) as (_ & _ & _ & Hsi4 & Hs4).
    assert (Hfresh : sales db !! sid' = None).
    { rewrite Hsid, Hs1. apply uuid_generate_v4_fresh. }
    assert (Hdom : dom (sales db4) = {[sid']} ∪ dom (sales db)).
    { rewrite Hs4, dom_alter_L, Hs3, Hs2, dom_insert_L, Hs1. done. }
    split.
    + intros i row Hi. rewrite Hdom. rewrite Hsi4 in Hi.
      destruct (Hnew i row Hi) as [Hold|(Hs & _)].
      * rewrite Hsi2, Hsi1 in Hold. apply Hfk in Hold.
        apply elem_of_union. by right.
      * apply elem_of_union. left. by apply elem_of_singleton.
    + intros sid row Hrow.
      assert (Hne : sid ≠ sid') by congruence.
      split_and!.
      * rewrite Hs4, Hs3, Hs2, lookup_alter_ne, lookup_insert_ne, Hs1; done.
      * rewrite Hsi4, (process_items_other_sale _ _ _ _ _ _ _ sid Hne Hitems).
        by rewrite Hsi2, Hsi1.
      * intros i it Hi Hsale. rewrite Hsi4 in Hi.
        destruct (Hnew i it Hi) as [Hold|(Hs & _)]; [|congruence].
        by rewrite Hsi2, Hsi1 in Hold.
Qed.

Lemma apply_event_keeps_sales (ev : store_event) (db : database) :
  sale_items_reference_sales db →
  sale_items_reference_sales (apply_event ev db) ∧
  ∀ sid row, sales db !! sid = Some row →
    sales (apply_event ev db) !! sid = Some row ∧
    sale_subtotals sid (sale_items (apply_event ev db)) =
      sale_subtotals sid (sale_items db) ∧
    (∀ i it, sale_items (apply_event ev db) !! i = Some it →
       si_sale_id it = sid → sale_items db !! i = Some it).
Proof.
  intros Hfk. destruct ev as [r|op]; simpl.
  - by apply process_sale_keeps_sales.
  - destruct (apply_catalog_op_frame op db) as (Hs & Hi & _).
    split.
    + intros i row Hrow. rewrite Hs. apply (Hfk i). by rewrite <- Hi.
    + intros sid row Hrow. rewrite Hs, Hi. eauto.
Qed.

Lemma run_events_keep_sales (evs : list store_event) (db : database) sid row :
  sale_items_reference_sales db →
  sales db !! sid = Some row →
  sales (run_events evs db) !! sid = Some row ∧
  sale_subtotals sid (sale_items (run_events evs db)) =
    sale_subtotals sid (sale_items db) ∧
  (∀ i it, sale_items (run_events evs db) !! i = Some it →
     si_sale_id it = sid → sale_items db !! i = Some it).
Proof.
  revert db. induction evs as [|ev rest IH]; intros db Hfk Hrow; simpl; [eauto|].
  destruct (apply_event_keeps_sales ev db Hfk) as (Hfk' & Hkeep).
  destruct (Hkeep sid row Hrow) as (Hrow' & Hsum & Hrows).
  destruct (IH (apply_event ev db) Hfk' Hrow') as (Hrow'' & Hsum' & Hrows').
  split_and!; [done | congruence | eauto].
Qed.

(** * The properties of the specification *)

(** C1: a request whose second line names an inactive product is rejected,
    and no product, sale or sale item changes; but the customer step that ran
    before the validation stays: the row of the e-mail now carries the names
    of the rejected request, and for an e-mail not seen before a row has been
    created. *)
Theorem rejected_sale_keeps_customer_upsert :
  (process_sale 9 "Anne" "Lee" "a@x.com" [line 1 3; line 2 1] shop).1 =
    Failure "Product is not active: Mocha" ∧
  customers shop !! 1%N = Some ann ∧
  customers (process_sale 9 "Anne" "Lee" "a@x.com" [line 1 3; line 2 1] shop).2 !! 1%N =
    Some {| c_first_name := "Anne"; c_last_name := "Lee"; c_email := "a@x.com";
            c_created_at := 0; c_updated_at := 9 |} ∧
  products (process_sale 9 "Anne" "Lee" "a@x.com" [line 1 3; line 2 1] shop).2 =
    products shop ∧
  (process_sale 9 "Bob" "Ray" "b@x.com" [line 8 1] shop).1 =
    Failure "Product not found: 00000000-0000-0000-0000-000000000008" ∧
  size (customers shop) = 1%nat ∧
  size (customers (process_sale 9 "Bob" "Ray" "b@x.com" [line 8 1] shop).2) = 2%nat.
Proof. vm_compute. repeat split; reflexivity. Qed.

(** C2: over any sequence of calls, the stock of a product at the end is its
    stock at the start minus the quantities of that product in the requests
    that committed; the sale items stored for the product have grown by
    exactly that much; and after every prefix of the sequence the stock is
    not negative. *)
Theorem stock_conservation (rs : list sale_request) (db : database)
    (pid : uuid) (p : product_row) :
  products db !! pid = Some p →
  0 ≤ p_stock p →
  (∃ p', products (run_requests rs db) !! pid = Some p' ∧
         p_stock p' = p_stock p - sold pid rs db) ∧
  quantity_sold pid (sale_items (run_requests rs db)) =
    quantity_sold pid (sale_items db) + sold pid rs db ∧
  (∀ n, ∃ pn, products (run_requests (take n rs) db) !! pid = Some pn ∧ 0 ≤ p_stock pn).
Proof.
  revert db p. induction rs as [|r rest IH]; intros db p Hp Hnn.
  - simpl. repeat split.
    + exists p. split; [done | lia].
    + lia.
    + intros n. rewrite take_nil. simpl. eauto.
  - destruct (run_request_stock r db pid p Hp) as (p1 & Hp1 & Hst1 & Hnn1).
    destruct (IH _ _ Hp1 (Hnn1 Hnn)) as ((p' & Hp' & Hst') & Hsold & Hpre).
    simpl. repeat split.
    + exists p'. split; [done | lia].
    + rewrite Hsold, run_request_sold. lia.
    + intros [|n]; simpl; eauto.
Qed.

Lemma stock_conservation_witness :
  products shop !! 1%N = Some espresso ∧ 0 ≤ p_stock espresso ∧
  sold 1 demo_requests shop = 5 ∧
  ∃ p', products (run_requests demo_requests shop) !! 1%N = Some p' ∧
        p_stock p' = p_stock espresso - sold 1 demo_requests shop.
Proof.
  assert (Hnn : 0 ≤ p_stock espresso) by (vm_compute; discriminate).
  split; [reflexivity|]. split; [exact Hnn|]. split; [vm_compute; reflexivity|].
  exact (proj1 (stock_conservation demo_requests shop 1%N espresso eq_refl Hnn)).
Defined.

(** C3: when [createSale] resolves, the sale it names is stored with the
    total it returns; that total is the sum of the subtotals of the sale's
    items; every item of the sale has subtotal = quantity × unit price, the
    unit price being the price the product had when the call was made; all of
    it in whole hundredths within the ten digits of the column.  This is so
    when the call returns and after anything that writes to the store later
    (further sales, changes of the catalog). *)
Theorem committed_sale_total_exact uuid_in t now saleData db out db' calls
    (later : list store_event) :
  sale_items_reference_sales db →
  createSale uuid_in t now saleData db = (inr out, db', calls) →
  (∃ row, sales (run_events later db') !! saleId out = Some row ∧
          s_total row = total out ∧ s_customer_id row = customerId out) ∧
  sale_subtotals (saleId out) (sale_items (run_events later db')) = total out ∧
  (∀ i row, sale_items (run_events later db') !! i = Some row →
     si_sale_id row = saleId out →
     si_subtotal row = si_quantity row * si_unit_price row ∧
     ∃ p, products db !! si_product_id row = Some p ∧ si_unit_price row = p_price p) ∧
  0 ≤ total out < 10 ^ 10.
Proof.
  intros Hfk H. apply createSale_inr in H as (its & _ & _ & H).
  destruct (process_sale_committed _ _ _ _ _ _ _ _ _ _ Hfk H)
    as (_ & (row & Hrow & Htot & Hcid) & _ & Hsum & _ & Hrange & _ & Hitems).
  pose proof (process_sale_keeps_sales now (firstName saleData) (lastName saleData)
                (email saleData) its db Hfk) as (Hfk' & _).
  rewrite H in Hfk'. simpl in Hfk'.
  destruct (run_events_keep_sales later db' (saleId out) row Hfk' Hrow)
    as (Hrow' & Hsum' & Hrows').
  split_and!; try lia.
  - eauto.
  - intros i it Hi Hs.
    destruct (Hitems i it (Hrows' i it Hi Hs) Hs) as (_ & _ & Hm & Hp). done.
Qed.

Lemma committed_sale_total_exact_witness :
  sale_items_reference_sales shop ∧
  sale_subtotals 0
    (sale_items
       (run_events
          [CatalogCall (UpdateProduct 6 1
             {| up_name := None; up_description := None;
                up_price := Some (999 # 100); up_stock := None |} None);
           SaleCall {| r_now := 7; r_first := "Bob"; r_last := "Ray";
                       r_email := "b@x.com"; r_items := [line 1 1] |}]
          (createSale canonical_uuid Reachable 5
             (order "Ann" "Lee" "a@x.com"
                [item "00000000-0000-0000-0000-000000000001" 3;
                 item "00000000-0000-0000-0000-000000000003" 1]) shop).1.2)) = 1800.
Proof.
  assert (Hfk : sale_items_reference_sales shop).
  { intros i row Hi. unfold shop in Hi. simpl in Hi.
    rewrite lookup_empty in Hi. discriminate. }
  split; [exact Hfk|].
  exact (proj1 (proj2 (committed_sale_total_exact canonical_uuid Reachable 5
    (order "Ann" "Lee" "a@x.com"
       [item "00000000-0000-0000-0000-000000000001" 3;
        item "00000000-0000-0000-0000-000000000003" 1])
    shop {| saleId := 0; customerId := 1; total := 1800 |}
    (createSale canonical_uuid Reachable 5
       (order "Ann" "Lee" "a@x.com"
          [item "00000000-0000-0000-0000-000000000001" 3;
           item "00000000-0000-0000-0000-000000000003" 1]) shop).1.2
    (createSale canonical_uuid Reachable 5
       (order "Ann" "Lee" "a@x.com"
          [item "00000000-0000-0000-0000-000000000001" 3;
           item "00000000-0000-0000-0000-000000000003" 1]) shop).2
    [CatalogCall (UpdateProduct 6 1
       {| up_name := None; up_description := None;
          up_price := Some (999 # 100); up_stock := None |} None);
     SaleCall {| r_now := 7; r_first := "Bob"; r_last := "Ray";
                 r_email := "b@x.com"; r_items := [line 1 1] |}]
    Hfk ltac:(vm_compute; reflexivity)))).
Defined.

(** C5: the lines are validated in the order of the request and, for each
    line, existence is checked first, then the active flag, then the stock.
    When step 1 has not raised and every line before [it] passes, the call
    returns the rejection of the first check that [it] fails: an unknown
    product is named by its id, an inactive product by its name (whatever its
    stock), and a product short of stock by its name with the available and
    the requested quantity. *)
Theorem first_failing_check_decides now first last email pre it post db cid db1 :
  resolve_customer now first last email db = inr (cid, db1) →
  Forall (line_valid (products db)) pre →
  (products db !! product_id it = None →
   (process_sale now first last email (pre ++ it :: post) db).1 =
     Failure ("Product not found: " +:+ uuid_out (product_id it))) ∧
  (∀ p, products db !! product_id it = Some p → p_is_active p = false →
   (process_sale now first last email (pre ++ it :: post) db).1 =
     Failure ("Product is not active: " +:+ p_name p)) ∧
  (∀ p, products db !! product_id it = Some p → p_is_active p = true →
   p_stock p < quantity it →
   (process_sale now first last email (pre ++ it :: post) db).1 =
     Failure ("Insufficient stock for product: " +:+ p_name p +:+
              " (available: " +:+ pretty (p_stock p) +:+
              ", requested: " +:+ pretty (quantity it) +:+ ")")).
Proof.
  intros Hres Hpre. split_and!.
  - intros Hnone. erewrite process_sale_rejects; [done|exact Hres|].
    rewrite validate_items_app_valid by done. simpl. by rewrite Hnone.
  - intros p Hp Hact. erewrite process_sale_rejects; [done|exact Hres|].
    rewrite validate_items_app_valid by done. simpl. by rewrite Hp, Hact.
  - intros p Hp Hact Hlt. erewrite process_sale_rejects; [done|exact Hres|].
    rewrite validate_items_app_valid by done. simpl. rewrite Hp, Hact. simpl.
    destruct (Z.ltb_spec (p_stock p) (quantity it)); [done | lia].
Qed.

Lemma first_failing_check_decides_witness :
  resolve_customer 5 "Ann" "Lee" "a@x.com" shop =
    inr (1%N, with_customers (alter (set_customer_names 5 "Ann" "Lee") 1%N (customers shop))
                shop) ∧
  Forall (line_valid (products shop)) [line 1 3] ∧
  (process_sale 5 "Ann" "Lee" "a@x.com" [line 1 3; line 2 1] shop).1 =
    Failure "Product is not active: Mocha".
Proof.
  assert (Hres : resolve_customer 5 "Ann" "Lee" "a@x.com" shop =
            inr (1%N, with_customers
                        (alter (set_customer_names 5 "Ann" "Lee") 1%N (customers shop))
                        shop)).
  { vm_compute. reflexivity. }
  assert (Hpre : Forall (line_valid (products shop)) [line 1 3]).
  { constructor; [|constructor]. exists espresso.
    split; [reflexivity|]. split; [reflexivity|]. vm_compute; discriminate. }
  split; [exact Hres|]. split; [exact Hpre|].
  exact (proj1 (proj2 (first_failing_check_decides 5 "Ann" "Lee" "a@x.com"
           [line 1 3] (line 2 1) [] shop _ _ Hres Hpre)) mocha eq_refl eq_refl).
Defined.

(** C6: of two committed requests with the same e-mail, with any calls in
    between, the second leaves exactly one customer row with that e-mail; it
    is the customer of both sales and carries the first and last name of the
    second request.  No call removes a customer. *)
Theorem customer_is_upserted_by_email
    now1 first1 last1 items1 now2 first2 last2 items2 email
    db0 sid1 cid1 total1 db1 (between : list sale_request) sid2 cid2 total2 db2 :
  emails_unique (customers db0) →
  customer_fits first2 last2 email →
  process_sale now1 first1 last1 email items1 db0 = (Success sid1 cid1 total1, db1) →
  process_sale now2 first2 last2 email items2 (run_requests between db1) =
    (Success sid2 cid2 total2, db2) →
  (∃ c, customers db2 !! cid2 = Some c ∧ c_email c = email ∧
        c_first_name c = first2 ∧ c_last_name c = last2) ∧
  (∀ j cj, customers db2 !! j = Some cj → c_email cj = email → j = cid2) ∧
  cid1 = cid2 ∧
  (∀ now first last e items db,
     dom (customers db) ⊆ dom (customers (process_sale now first last e items db).2)).
Proof.
  intros Huniq Hfit H1 H2.
  apply committed_customers in H1 as (d1 & Hres1 & Hc1).
  apply committed_customers in H2 as (d2 & Hres2 & Hc2).
  assert (Huniq1 : emails_unique (customers db1)).
  { rewrite Hc1. eapply resolve_customer_emails_unique; eauto. }
  destruct (run_requests_customers between db1 Huniq1) as (Huniq1' & Hkeep).
  assert (Huniq2 : emails_unique (customers db2)).
  { rewrite Hc2. eapply resolve_customer_emails_unique; eauto. }
  destruct (resolve_customer_fits now2 first2 last2 email (run_requests between db1) Hfit)
    as (id & d2' & c & Hres2' & Hc & Hf & Hl & He & _ & _ & Hsame).
  rewrite Hres2 in Hres2'. injection Hres2' as <- <-.
  assert (Hrow : ∃ c, customers db2 !! cid2 = Some c ∧ c_email c = email ∧
                      c_first_name c = first2 ∧ c_last_name c = last2).
  { exists c. by rewrite Hc2. }
  split_and!.
  - exact Hrow.
  - intros j cj Hj Hej. destruct Hrow as (c' & Hc' & He' & _).
    eapply Huniq2; eauto. congruence.
  - (* the first call stored the e-mail as it is, so the second finds that row *)
    destruct Hfit as (_ & _ & Hlen).
    assert (Hrow1 : ∃ c1, customers db1 !! cid1 = Some c1 ∧ c_email c1 = email).
    { rewrite Hc1. revert Hres1. unfold resolve_customer.
      destruct (select_customer_by_email email (customers db0)) as [k|] eqn:Hsel;
        intros Hres1; exn_inv Hres1.
      - injection Hres1 as <- <-. simpl.
        apply select_customer_by_email_Some in Hsel as (c0 & Hc0 & He0).
        rewrite lookup_alter_eq, Hc0. simpl. eauto.
      - injection Hres1 as <- <-. simpl. rewrite lookup_insert_eq.
        eexists. split; [reflexivity|]. simpl.
        match goal with Hv : varchar 255 email = inr _ |- _ =>
          rewrite varchar_fits in Hv by done; by injection Hv as <- end. }
    destruct Hrow1 as (c1 & Hc1' & He1).
    destruct (Hkeep _ _ Hc1') as (c1' & Hc1'' & He1').
    destruct (select_customer_by_email email (customers (run_requests between db1)))
      as [k|] eqn:Hsel.
    + specialize (Hsame k eq_refl). subst k.
      apply select_customer_by_email_Some in Hsel as (ck & Hck & Hek).
      eapply Huniq1'; eauto. congruence.
    + destruct (select_customer_by_email_None _ _ Hsel _ _ Hc1''). congruence.
  - intros. apply process_sale_keeps_customers.
Qed.

Lemma customer_is_upserted_by_email_witness :
  emails_unique (customers shop) ∧ customer_fits "Anne" "Lee" "a@x.com" ∧
  ∃ c, customers (process_sale 8 "Anne" "Lee" "a@x.com" [line 1 1]
                    (run_requests demo_requests
                       (process_sale 4 "Ann" "Lee" "a@x.com" [line 1 2] shop).2)).2 !! 1%N
       = Some c ∧
       c_email c = "a@x.com" ∧ c_first_name c = "Anne" ∧ c_last_name c = "Lee".
Proof.
  assert (Hu : emails_unique (customers shop)).
  { intros i j ci cj Hi Hj _. unfold shop in Hi, Hj. simpl in Hi, Hj.
    apply lookup_singleton_Some in Hi as [<- _].
    apply lookup_singleton_Some in Hj as [<- _]. reflexivity. }
  assert (Hfit : customer_fits "Anne" "Lee" "a@x.com").
  { repeat split; apply Nat.leb_le; reflexivity. }
  split; [exact Hu|]. split; [exact Hfit|].
  refine (proj1 (customer_is_upserted_by_email
            4 "Ann" "Lee" [line 1 2] 8 "Anne" "Lee" [line 1 1] "a@x.com"
            shop 0%N 1%N 1000 (process_sale 4 "Ann" "Lee" "a@x.com" [line 1 2] shop).2
            demo_requests 3%N 1%N 500
            (process_sale 8 "Anne" "Lee" "a@x.com" [line 1 1]
               (run_requests demo_requests
                  (process_sale 4 "Ann" "Lee" "a@x.com" [line 1 2] shop).2)).2
            Hu Hfit _ _)).
  - vm_compute. reflexivity.
  - vm_compute. reflexivity.
Defined.

(** C7: whatever is done to the catalog after a sale (products created,
    updated, among others in price, or deleted), the [sales] and [sale_items]
    tables are what they were: every total, unit price and subtotal stored
    for a sale stays. *)
Theorem catalog_changes_keep_sales (ops : list catalog_op) (db : database) :
  sales (run_catalog_ops ops db) = sales db ∧
  sale_items (run_catalog_ops ops db) = sale_items db ∧
  (∀ sid, sale_subtotals sid (sale_items (run_catalog_ops ops db)) =
          sale_subtotals sid (sale_items db)).
Proof.
  revert db. induction ops as [|op rest IH]; intros db; simpl.
  - done.
  - destruct (IH (apply_catalog_op op db)) as (Hs & Hi & Hsum).
    destruct (apply_catalog_op_frame op db) as (Hs' & Hi' & _).
    rewrite Hs, Hi, Hs', Hi'. done.
Qed.

(** A price change after a sale: the product now costs 9.99, the item of the
    sale still says 5.00 a piece and 15.00 in all. *)
Example price_change_after_sale :
  let sold_db := (process_sale 5 "Ann" "Lee" "a@x.com" [line 1 3] shop).2 in
  let later := apply_catalog_op
                 (UpdateProduct 6 1
                    {| up_name := None; up_description := None;
                       up_price := Some (999 # 100); up_stock := None |} None) sold_db in
  p_price <$> products later !! 1%N = Some 999 ∧
  (si_unit_price <$> sale_items later !! 0%N = Some 500) ∧
  (si_subtotal <$> sale_items later !! 0%N = Some 1500) ∧
  (s_total <$> sales later !! 0%N = Some 1500).
Proof. vm_compute. repeat split; reflexivity. Qed.

(** C8, as the specification words it, fails: a request for an unknown
    product and a request for an inactive product are rejected with the same
    code, status and details, so no reading of the rejection that leaves out
    the message tells the two rules apart. *)
Lemma reason_code_does_not_identify_failure :
  ¬ reason_code_identifies_failure canonical_uuid.
Proof.
  intros [classify H].
  pose proof (H 5 unknown_product_order shop [line 8 1] _ eq_refl eq_refl) as H1.
  pose proof (H 5 inactive_product_order shop [line 2 1] _ eq_refl eq_refl) as H2.
  vm_compute in H1, H2. congruence.
Qed.

(** C8, amended: when [createSale] fails, either the store gave no result
    (it was unreachable or could not read the items) and the error is
    [INTERNAL_ERROR] with status 500, or [process_sale] returned a failure
    and the error is [BAD_REQUEST] with status 400 and the message of that
    failure; the message is that of the check of step 2 that rejected the
    items, or [Transaction failed: ] followed by the error the handler
    caught; and the kind of the failure (product not found, product not
    active, insufficient stock, or a failure caught by the handler) is the
    one the message of the error begins with. *)
Theorem createSale_failure_is_told_by_message uuid_in t now saleData db e db' calls :
  createSale uuid_in t now saleData db = (inl e, db', calls) →
  ((t = Unreachable ∨ items_in uuid_in (items saleData) = None) ∧
   e = AppErrors.internal "Failed to process sale" ∧ db' = db) ∨
  (∃ its msg,
     t = Reachable ∧ items_in uuid_in (items saleData) = Some its ∧
     process_sale now (firstName saleData) (lastName saleData) (email saleData) its db =
       (Failure msg, db') ∧
     e = AppErrors.badRequest msg ∧
     (validate_items (products db) its = Some msg ∨
      ∃ err, process_sale_block now (firstName saleData) (lastName saleData)
               (email saleData) its db = inl err ∧
             msg = "Transaction failed: " +:+ sqlerrm err) ∧
     failure_kind_of now (firstName saleData) (lastName saleData) (email saleData)
       its db = Some (kind_of_message (message e))).
Proof.
  unfold createSale, supabase_rpc. intros H.
  destruct t; [|simpl in H; injection H as <- <- _; left; auto].
  simpl in H.
  destruct (items_in uuid_in (items saleData)) as [its|] eqn:Hits;
    [|injection H as <- <- _; left; auto].
  destruct (process_sale now (firstName saleData) (lastName saleData) (email saleData)
              its db) as [res db1] eqn:Hps.
  simpl in H. destruct res as [sid cid v|msg]; [discriminate H|].
  injection H as <- <- _. right. exists its, msg.
  destruct (process_sale_failure_message now (firstName saleData) (lastName saleData)
              (email saleData) its db msg) as (Hne & Hform).
  { by rewrite Hps. }
  assert (Hmsg : (if String.eqb msg "" then "Failed to process sale" else msg) = msg).
  { apply String.eqb_neq in Hne. by rewrite Hne. }
  rewrite Hmsg. split_and!; try done.
  - destruct Hform as [(err & Hb & ->)|Hv]; eauto.
  - simpl. apply process_sale_failure_kind. by rewrite Hps.
Qed.

Lemma createSale_failure_is_told_by_message_witness :
  ∃ its msg,
    items_in canonical_uuid (items short_stock_order) = Some its ∧
    process_sale 5 "Ann" "Lee" "a@x.com" its shop =
      (Failure msg, (createSale canonical_uuid Reachable 5 short_stock_order shop).1.2) ∧
    AppErrors.badRequest
      "Insufficient stock for product: Decaf (available: 1, requested: 2)" =
    AppErrors.badRequest msg ∧
    failure_kind_of 5 "Ann" "Lee" "a@x.com" its shop = Some InsufficientStock.
Proof.
  destruct (createSale_failure_is_told_by_message canonical_uuid Reachable 5
              short_stock_order shop
              (AppErrors.badRequest
                 "Insufficient stock for product: Decaf (available: 1, requested: 2)")
              (createSale canonical_uuid Reachable 5 short_stock_order shop).1.2
              (createSale canonical_uuid Reachable 5 short_stock_order shop).2
              ltac:(vm_compute; reflexivity))
    as [([Hun|Hnone] & _)|(its & msg & _ & Hits & Hps & He & _ & Hkind)].
  - discriminate Hun.
  - vm_compute in Hnone. discriminate Hnone.
  - exists its, msg. split; [exact Hits|]. split; [exact Hps|]. split; [exact He|].
    exact Hkind.
Defined.

(** C9: a request with no items, with more than 50 items, or with an item
    whose quantity is not a whole number from 1 to 100 is answered with
    status 422 and [VALIDATION_ERROR] by the validation in front of the
    controller: [process_sale] is not called and the store is as it was. *)
Theorem invalid_request_rejected_before_the_call
    is_uuid is_email uuid_in t now (b : raw_sale) (db : database) :
  raw_items b = [] ∨ (50 < length (raw_items b))%nat ∨
  (∃ it, it ∈ raw_items b ∧ ¬ quantity_acceptable (raw_quantity it)) →
  ∃ ds, ds ≠ [] ∧
    post_sales is_uuid is_email uuid_in t now b db =
      ({| status := 422;
          body := ErrorBody "VALIDATION_ERROR" "Validation failed for body" ds |},
       db, []).
Proof.
  intros H. apply (createSaleSchema_issues_nonempty is_uuid is_email) in H.
  unfold post_sales, validate, createSaleSchema.
  destruct (createSaleSchema_issues is_uuid is_email b) as [|d ds] eqn:Hissues; [done|].
  exists (d :: ds). split; [done|]. reflexivity.
Qed.

Lemma invalid_request_rejected_before_the_call_witness :
  (∃ it, it ∈ raw_items (body_of [raw "00000000-0000-0000-0000-000000000001" (5 # 2)]) ∧
         ¬ quantity_acceptable (raw_quantity it)) ∧
  ∃ ds, ds ≠ [] ∧
    post_sales looks_like_uuid has_at canonical_uuid Reachable 5
      (body_of [raw "00000000-0000-0000-0000-000000000001" (5 # 2)]) shop =
      ({| status := 422;
          body := ErrorBody "VALIDATION_ERROR" "Validation failed for body" ds |},
       shop, []).
Proof.
  assert (Hbad : ∃ it,
            it ∈ raw_items (body_of [raw "00000000-0000-0000-0000-000000000001" (5 # 2)]) ∧
            ¬ quantity_acceptable (raw_quantity it)).
  { exists (raw "00000000-0000-0000-0000-000000000001" (5 # 2)).
    split; [apply list_elem_of_here|].
    intros (z & (q & Hq & Heq) & _). injection Hq as <-.
    unfold Qeq in Heq. simpl in Heq. lia. }
  split; [exact Hbad|].
  exact (invalid_request_rejected_before_the_call looks_like_uuid has_at canonical_uuid
           Reachable 5 (body_of [raw "00000000-0000-0000-0000-000000000001" (5 # 2)])
           shop (or_intror (or_intror Hbad))).
Defined.

(** C10: step 1 has not raised, every line of the request passes validation
    on its own and quantities are positive, but the lines together ask more
    of some product than its stock.  Validation lets the request through; the
    decrement of the stock then violates [CHECK (stock >= 0)], and the call
    returns the generic failure of the exception handler, not the rejection
    for insufficient stock, with the store as it was. *)
Theorem split_lines_pass_validation_then_fail
    now first last email items db pid p cid db1 :
  resolve_customer now first last email db = inr (cid, db1) →
  products_ok (products db) →
  Forall (λ it, line_valid (products db) it ∧ 0 < quantity it) items →
  order_value (products db) items < 10 ^ 10 →
  products db !! pid = Some p →
  p_stock p < requested pid items →
  validate_items (products db) items = None ∧
  process_sale now first last email items db =
    (Failure ("Transaction failed: " +:+
              sqlerrm (check_violation "products" "products_stock_check")), db).
Proof.
  intros Hres Hok Hall Hbound Hp Hover.
  assert (Hval : validate_items (products db) items = None).
  { apply validate_items_None. eapply Forall_impl; [exact Hall|]. by intros it [? _]. }
  split; [exact Hval|].
  destruct (Hok _ _ Hp) as (_ & Hnn & _).
  destruct (oversold_request_fails now first last email items db pid p Hval Hp Hnn Hover)
    as (e & Hblock & ->).
  enough (He : e = check_violation "products" "products_stock_check") by (by rewrite He).
  revert Hblock. unfold process_sale_block.
  destruct (resolve_customer_frame _ _ _ _ _ _ _ Hres) as (Hps1 & Hs1 & Hsi1 & _ & Hcid).
  rewrite Hres. simpl. rewrite Hps1, Hval.
  unfold insert_sale. simpl. rewrite bool_decide_eq_true_2 by done. simpl.
  match goal with |- context [process_items now ?sid items (?d, 0)] =>
    destruct (process_items now sid items (d, 0)) as [e'|[db3 total]] eqn:Hitems end.
  - simpl. intros [= <-].
    eapply process_items_raises_stock_check; [| | | | |exact Hitems]; simpl.
    + by rewrite Hps1.
    + rewrite Hps1. eapply Forall_impl; [exact Hall|].
      intros it ((pi & Hpi & _ & Hle) & Hq). split; [|eauto].
      destruct (Hok _ _ Hpi). lia.
    + rewrite dom_insert_L. set_solver.
    + lia.
    + rewrite Hps1. lia.
  - exfalso.
    assert (Hp2 : products db1 !! pid = Some p) by (rewrite Hps1; done).
    destruct (process_items_stock now _ items _ 0 db3 total pid p Hitems)
      as (p' & _ & Hst & _ & _ & _ & Hnn'); [exact Hp2|].
    specialize (Hnn' Hnn). lia.
Qed.

Lemma shop_products_ok : products_ok (products shop).
Proof.
  intros pid p H. unfold shop in H. simpl in H.
  apply lookup_insert_Some in H as [[_ <-]|[_ H]]; [simpl; lia|].
  apply lookup_insert_Some in H as [[_ <-]|[_ H]]; [simpl; lia|].
  apply lookup_singleton_Some in H as [_ <-]. simpl; lia.
Defined.

Lemma split_lines_pass_validation_then_fail_witness :
  resolve_customer 5 "Ann" "Lee" "a@x.com" shop =
    inr (1%N, with_customers (alter (set_customer_names 5 "Ann" "Lee") 1%N (customers shop))
                shop) ∧
  products_ok (products shop) ∧
  Forall (λ it, line_valid (products shop) it ∧ 0 < quantity it) [line 1 6; line 1 6] ∧
  order_value (products shop) [line 1 6; line 1 6] < 10 ^ 10 ∧
  products shop !! 1%N = Some espresso ∧
  p_stock espresso < requested 1 [line 1 6; line 1 6] ∧
  validate_items (products shop) [line 1 6; line 1 6] = None ∧
  process_sale 5 "Ann" "Lee" "a@x.com" [line 1 6; line 1 6] shop =
    (Failure ("Transaction failed: " +:+
              sqlerrm (check_violation "products" "products_stock_check")), shop).
Proof.
  assert (Hres : resolve_customer 5 "Ann" "Lee" "a@x.com" shop =
            inr (1%N, with_customers
                        (alter (set_customer_names 5 "Ann" "Lee") 1%N (customers shop))
                        shop)).
  { vm_compute. reflexivity. }
  assert (Hline : line_valid (products shop) (line 1 6) ∧ 0 < quantity (line 1 6)).
  { split; [|reflexivity]. exists espresso.
    split; [reflexivity|]. split; [reflexivity|]. vm_compute; discriminate. }
  assert (Hall : Forall (λ it, line_valid (products shop) it ∧ 0 < quantity it)
                        [line 1 6; line 1 6]).
  { constructor; [exact Hline|]. constructor; [exact Hline|]. constructor. }
  assert (Hval : order_value (products shop) [line 1 6; line 1 6] < 10 ^ 10)
    by reflexivity.
  assert (Hover : p_stock espresso < requested 1 [line 1 6; line 1 6])
    by reflexivity.
  split; [exact Hres|]. split; [exact shop_products_ok|]. split; [exact Hall|].
  split; [exact Hval|]. split; [reflexivity|]. split; [exact Hover|].
  exact (split_lines_pass_validation_then_fail 5 "Ann" "Lee" "a@x.com"
           [line 1 6; line 1 6] shop 1%N espresso _ _
           Hres shop_products_ok Hall Hval eq_refl Hover).
Defined.

(** * Further properties of the code *)

(** ** What the loop over the items does to a product *)

Lemma process_items_positive now sid items db t db' t' :
  process_items now sid items (db, t) = inr (db', t') →
  Forall (λ it, 0 < quantity it) items.
Proof.
  revert db t. induction items as [|it rest IH]; intros db t H; simpl in H.
  - constructor.
  - apply bind_inr in H as ([db1 t1] & H1 & H).
    apply process_item_inr in H1 as (p & _ & Hq & _).
    constructor; eauto.
Qed.

Lemma requested_none pid items :
  Forall (λ it, product_id it ≠ pid) items → requested pid items = 0.
Proof.
  induction 1 as [|it rest Hne _ IH]; simpl; [done|].
  by rewrite decide_False.
Qed.

Lemma requested_nonneg pid items :
  Forall (λ it, 0 < quantity it) items → 0 ≤ requested pid items.
Proof.
  induction 1 as [|it rest Hq _ IH]; simpl; [done|].
  destruct (decide (product_id it = pid)); lia.
Qed.

Lemma set_stock_set_stock now s1 s2 p :
  set_stock now s2 (set_stock now s1 p) = set_stock now s2 p.
Proof. reflexivity. Qed.

(** A product no line names is left as it is; a product some line names
    has its stock lowered by what the lines ask for, and nothing else of it
    changes but [updated_at]. *)
Lemma process_items_product now sid items db t db' t' pid p :
  process_items now sid items (db, t) = inr (db', t') →
  products db !! pid = Some p →
  ∃ p', products db' !! pid = Some p' ∧
    (Forall (λ it, product_id it ≠ pid) items → p' = p) ∧
    (Exists (λ it, product_id it = pid) items →
       p' = set_stock now (p_stock p - requested pid items) p).
Proof.
  revert db t p. induction items as [|it rest IH]; intros db t p H Hpid; simpl in H.
  - apply mret_inr in H. simplify_eq. exists p. split; [done|].
    split; [done|]. intros Hex. by apply Exists_nil in Hex.
  - apply bind_inr in H as ([db1 t1] & H1 & H).
    apply process_item_inr in H1
      as (p0 & Hp0 & _ & _ & _ & _ & _ & _ & _ & _ & _ & Hps & _).
    destruct (decide (product_id it = pid)) as [Heq|Hne].
    + subst pid. rewrite Hpid in Hp0. injection Hp0 as <-.
      assert (Hl : products db1 !! product_id it =
                   Some (set_stock now (p_stock p - quantity it) p))
        by (rewrite Hps; apply lookup_insert_eq).
      destruct (IH _ _ _ H Hl) as (p' & Hp' & Hnone & Hsome).
      exists p'. split; [done|]. split.
      * intros Hall. apply Forall_cons in Hall as [Hne _]. done.
      * intros _. simpl. rewrite decide_True by done.
        destruct (decide (Exists (λ i, product_id i = product_id it) rest)) as [Hex|Hnex].
        -- rewrite (Hsome Hex), set_stock_set_stock. simpl. f_equal. lia.
        -- apply not_Exists_Forall in Hnex; [|intros ?; apply _].
           assert (Hall : Forall (λ i, product_id i ≠ product_id it) rest).
           { eapply Forall_impl; [exact Hnex|]. simpl. auto. }
           rewrite (Hnone Hall), (requested_none _ _ Hall). f_equal. lia.
    + assert (Hl : products db1 !! pid = Some p)
        by (rewrite Hps, lookup_insert_ne; done).
      destruct (IH _ _ _ H Hl) as (p' & Hp' & Hnone & Hsome).
      exists p'. split; [done|]. split.
      * intros Hall. apply Forall_cons in Hall as [_ Hall]. auto.
      * intros Hex. apply Exists_cons in Hex as [Hex|Hex]; [done|].
        simpl. rewrite decide_False by done. auto.
Qed.

(** The same for a whole call, whatever its outcome. *)
Lemma process_sale_product now first last email items db pid p :
  products db !! pid = Some p →
  ∃ p', products (process_sale now first last email items db).2 !! pid = Some p' ∧
    (p' = p ∨
     committed (process_sale now first last email items db).1 = true ∧
     Forall (λ it, line_valid (products db) it ∧ 0 < quantity it) items ∧
     Exists (λ it, product_id it = pid) items ∧
     0 ≤ requested pid items ∧
     p' = set_stock now (p_stock p - requested pid items) p).
Proof.
  intros Hp.
  destruct (process_sale_outcome now first last email items db)
    as [e _|cid db1 message Hres _|cid db1 sid db2 db3 total db4 Hres Hval Hins Hitems Hupd].
  - exists p. auto.
  - destruct (resolve_customer_frame _ _ _ _ _ _ _ Hres) as (Hps & _).
    exists p. rewrite Hps. auto.
  - destruct (resolve_customer_frame _ _ _ _ _ _ _ Hres) as (Hps1 & _).
    apply insert_sale_inr in Hins as (_ & _ & _ & Hps2 & _).
    apply update_sale_total_inr in Hupd as (_ & _ & Hps4 & _).
    assert (Hp2 : products db2 !! pid = Some p) by (rewrite Hps2, Hps1; done).
    destruct (process_items_product _ _ _ _ _ _ _ _ _ Hitems Hp2)
      as (p' & Hp' & Hnone & Hsome).
    pose proof (process_items_positive _ _ _ _ _ _ _ Hitems) as Hpos.
    exists p'. rewrite Hps4. split; [done|].
    destruct (decide (Exists (λ it, product_id it = pid) items)) as [Hex|Hnex].
    + right. split_and!; try done.
      * apply validate_items_None in Hval.
        apply Forall_forall. intros it Hin. split.
        -- by apply (proj1 (Forall_forall _ _) Hval).
        -- by apply (proj1 (Forall_forall _ _) Hpos).
      * by apply requested_nonneg.
      * auto.
    + left. apply Hnone. apply not_Exists_Forall in Hnex; [|intros ?; apply _].
      eapply Forall_impl; [exact Hnex|]. simpl. auto.
Qed.

(** ** Calls that do not commit *)

(** X1: a call that does not return success has changed no product, no sale
    and no sale item; only the [customers] table can differ. *)
Theorem failed_call_leaves_sales_and_stock now first last email items db msg :
  (process_sale now first last email items db).1 = Failure msg →
  products (process_sale now first last email items db).2 = products db ∧
  sales (process_sale now first last email items db).2 = sales db ∧
  sale_items (process_sale now first last email items db).2 = sale_items db.
Proof.
  intros H. pose proof (process_sale_outcome now first last email items db) as Ho.
  destruct (process_sale now first last email items db) as [res db'].
  simpl in *. subst res.
  inversion Ho as [e He|cid db1 message Hres Hval|]; subst.
  - done.
  - by destruct (resolve_customer_frame _ _ _ _ _ _ _ Hres) as (? & ? & ? & _).
Qed.

Lemma failed_call_leaves_sales_and_stock_witness :
  (process_sale 5 "Ann" "Lee" "a@x.com" [line 1 6; line 1 6] shop).1 =
    Failure ("Transaction failed: " +:+
             sqlerrm (check_violation "products" "products_stock_check")) ∧
  products (process_sale 5 "Ann" "Lee" "a@x.com" [line 1 6; line 1 6] shop).2 =
    products shop.
Proof.
  assert (H : (process_sale 5 "Ann" "Lee" "a@x.com" [line 1 6; line 1 6] shop).1 =
              Failure ("Transaction failed: " +:+
                       sqlerrm (check_violation "products" "products_stock_check"))).
  { vm_compute. reflexivity. }
  split; [exact H|].
  exact (proj1 (failed_call_leaves_sales_and_stock 5 "Ann" "Lee" "a@x.com"
                  [line 1 6; line 1 6] shop _ H)).
Defined.

(** ** A request without lines *)

(** X2: called with an empty array of items (the schema in front refuses
    it, the function does not), [process_sale] commits: it stores a sale of
    total 0 for the customer, with no sale item, and leaves the products as
    they are. *)
Theorem empty_request_commits_an_empty_sale now first last email db cid db1 :
  resolve_customer now first last email db = inr (cid, db1) →
  (process_sale now first last email [] db).1 =
    Success (uuid_generate_v4 (sales db)) cid 0 ∧
  sales (process_sale now first last email [] db).2 !! uuid_generate_v4 (sales db) =
    Some {| s_customer_id := cid; s_total := 0;
            s_created_at := now; s_updated_at := now |} ∧
  sales db !! uuid_generate_v4 (sales db) = None ∧
  sale_items (process_sale now first last email [] db).2 = sale_items db ∧
  products (process_sale now first last email [] db).2 = products db.
Proof.
  intros Hres.
  destruct (resolve_customer_frame _ _ _ _ _ _ _ Hres) as (Hps & Hs & Hsi & _ & Hcid).
  unfold process_sale, process_sale_block. rewrite Hres. simpl.
  unfold insert_sale. simpl. rewrite bool_decide_eq_true_2 by done. simpl.
  rewrite Hs, Hps, Hsi. split_and!; try done.
  - by rewrite lookup_alter_eq, lookup_insert_eq.
  - apply uuid_generate_v4_fresh.
Qed.

Lemma empty_request_commits_an_empty_sale_witness :
  resolve_customer 5 "Ann" "Lee" "a@x.com" shop =
    inr (1%N, with_customers (alter (set_customer_names 5 "Ann" "Lee") 1%N (customers shop))
                shop) ∧
  (process_sale 5 "Ann" "Lee" "a@x.com" [] shop).1 =
    Success (uuid_generate_v4 (sales shop)) 1 0.
Proof.
  assert (Hres : resolve_customer 5 "Ann" "Lee" "a@x.com" shop =
            inr (1%N, with_customers
                        (alter (set_customer_names 5 "Ann" "Lee") 1%N (customers shop))
                        shop)).
  { vm_compute. reflexivity. }
  split; [exact Hres|].
  exact (proj1 (empty_request_commits_an_empty_sale 5 "Ann" "Lee" "a@x.com" shop _ _ Hres)).
Defined.

(** ** What a commit implies *)

(** X3: when a call commits, every line named an existing, active product
    with a positive quantity within its stock; the lines together asked of
    no product more than it had; and the total returned is the value of the
    lines at the prices of the catalog, below 100,000,000.00. *)
Theorem committed_call_was_valid now first last email items db sid cid total db' :
  process_sale now first last email items db = (Success sid cid total, db') →
  Forall (λ it, line_valid (products db) it ∧ 0 < quantity it) items ∧
  total = order_value (products db) items ∧ 0 ≤ total < 10 ^ 10 ∧
  (∀ pid p, products db !! pid = Some p → 0 ≤ p_stock p →
            requested pid items ≤ p_stock p).
Proof.
  intros H. pose proof (process_sale_outcome now first last email items db) as Ho.
  rewrite H in Ho. simpl in Ho.
  inversion Ho as [| |cid' db1 sid' db2 db3 total' db4 Hres Hval Hins Hitems Hupd]; subst.
  destruct (resolve_customer_frame _ _ _ _ _ _ _ Hres) as (Hps1 & _).
  apply insert_sale_inr in Hins as (_ & _ & _ & Hps2 & _).
  apply update_sale_total_inr in Hupd as (Htot & _).
  pose proof (process_items_positive _ _ _ _ _ _ _ Hitems) as Hpos.
  destruct (process_items_total _ _ _ _ _ _ _ Hitems) as (Ht & Hrange & _).
  rewrite Hps2, Hps1 in Ht.
  split_and!.
  - apply validate_items_None in Hval.
    apply Forall_forall. intros it Hin. split.
    + by apply (proj1 (Forall_forall _ _) Hval).
    + by apply (proj1 (Forall_forall _ _) Hpos).
  - lia.
  - lia.
  - destruct (Hrange ltac:(lia)) as [?| ->]; [lia|]. simpl in Ht. lia.
  - intros pid p Hp Hnn.
    assert (Hp2 : products db2 !! pid = Some p) by (rewrite Hps2, Hps1; done).
    destruct (process_items_stock _ _ _ _ _ _ _ _ _ Hitems Hp2)
      as (p' & _ & Hst & _ & _ & _ & Hnn').
    specialize (Hnn' Hnn). lia.
Qed.

Lemma committed_call_was_valid_witness :
  Forall (λ it, line_valid (products shop) it ∧ 0 < quantity it) [line 1 3; line 3 1] ∧
  1800 = order_value (products shop) [line 1 3; line 3 1].
Proof.
  pose proof (committed_call_was_valid 5 "Ann" "Lee" "a@x.com" [line 1 3; line 3 1] shop
                0%N 1%N 1800
                (process_sale 5 "Ann" "Lee" "a@x.com" [line 1 3; line 3 1] shop).2
                ltac:(vm_compute; reflexivity)) as (Hall & Htot & _).
  split; [exact Hall | exact Htot].
Defined.

(** ** A line too dear for the column *)

(** X4: when the first line is worth 100,000,000.00 or more (its price
    times its quantity does not fit [DECIMAL(10, 2)]), a request that passes
    validation fails in the loop with a numeric overflow, and the handler
    returns the generic failure with the store as it was. *)
Theorem overflowing_line_fails now first last email it rest db cid db1 p :
  resolve_customer now first last email db = inr (cid, db1) →
  validate_items (products db) (it :: rest) = None →
  products db !! product_id it = Some p →
  10 ^ 10 ≤ p_price p * quantity it →
  process_sale now first last email (it :: rest) db =
    (Failure "Transaction failed: numeric field overflow", db).
Proof.
  intros Hres Hval Hp Hbig.
  destruct (resolve_customer_frame _ _ _ _ _ _ _ Hres) as (Hps & Hs & Hsi & _ & Hcid).
  unfold process_sale, process_sale_block. rewrite Hres.
  remember (it :: rest) as items eqn:Hitems. simpl.
  rewrite Hps, Hval. subst items. unfold insert_sale. simpl.
  rewrite bool_decide_eq_true_2 by done. simpl.
  unfold process_item. simpl. rewrite Hps, Hp. unfold decimal_10_2.
  destruct (Z.ltb_spec (Z.abs (p_price p * quantity it)) (10 ^ 10)); [lia|].
  reflexivity.
Qed.

Lemma overflowing_line_fails_witness :
  validate_items (products showroom) [line 9 100] = None ∧
  products showroom !! 9%N = Some roastery ∧
  10 ^ 10 ≤ p_price roastery * quantity (line 9 100) ∧
  process_sale 5 "Ann" "Lee" "a@x.com" [line 9 100] showroom =
    (Failure "Transaction failed: numeric field overflow", showroom).
Proof.
  assert (Hbig : 10 ^ 10 ≤ p_price roastery * quantity (line 9 100)).
  { vm_compute. discriminate. }
  assert (Hres : resolve_customer 5 "Ann" "Lee" "a@x.com" showroom =
            inr (0%N, with_customers
                        (<[0%N := {| c_first_name := "Ann"; c_last_name := "Lee";
                                     c_email := "a@x.com";
                                     c_created_at := 5; c_updated_at := 5 |}]>
                           (customers showroom)) showroom)).
  { vm_compute. reflexivity. }
  split; [reflexivity|]. split; [reflexivity|]. split; [exact Hbig|].
  exact (overflowing_line_fails 5 "Ann" "Lee" "a@x.com" (line 9 100) [] showroom
           _ _ roastery Hres eq_refl eq_refl Hbig).
Defined.

(** ** The catalog under a sale *)

Lemma process_sale_products_dom now first last email items db :
  dom (products (process_sale now first last email items db).2) = dom (products db).
Proof.
  destruct (process_sale_outcome now first last email items db)
    as [e _|cid db1 message Hres _|cid db1 sid db2 db3 total db4 Hres _ Hins Hitems Hupd].
  - done.
  - by destruct (resolve_customer_frame _ _ _ _ _ _ _ Hres) as (-> & _).
  - destruct (resolve_customer_frame _ _ _ _ _ _ _ Hres) as (Hps1 & _).
    apply insert_sale_inr in Hins as (_ & _ & _ & Hps2 & _).
    apply process_items_frame in Hitems as (_ & _ & Hd3).
    apply update_sale_total_inr in Hupd as (_ & _ & Hps4 & _).
    rewrite Hps4, Hd3, Hps2, Hps1. done.
Qed.

Lemma process_sale_stock_bound now first last email items db pid p :
  products db !! pid = Some p → 0 ≤ p_stock p →
  committed (process_sale now first last email items db).1 = true →
  requested pid items ≤ p_stock p.
Proof.
  intros Hp Hnn Hc.
  pose proof (run_request_stock
    {| r_now := now; r_first := first; r_last := last; r_email := email;
       r_items := items |} db pid p Hp) as (p' & _ & Hst & Hnn').
  unfold run_request in Hst. simpl in Hst. rewrite Hc in Hst.
  specialize (Hnn' Hnn). lia.
Qed.

Lemma process_sale_catalog now first last email items db pid p :
  products db !! pid = Some p →
  ∃ p', products (process_sale now first last email items db).2 !! pid = Some p' ∧
    p_name p' = p_name p ∧ p_description p' = p_description p ∧
    p_price p' = p_price p ∧ p_image_url p' = p_image_url p ∧
    p_is_active p' = p_is_active p ∧ p_created_at p' = p_created_at p ∧
    p_stock p' ≤ p_stock p ∧ (0 ≤ p_stock p → 0 ≤ p_stock p') ∧
    (p_is_active p = false → p' = p).
Proof.
  intros Hp.
  destruct (process_sale_product now first last email items db pid p Hp)
    as (p' & Hp' & [->|(Hc & Hall & Hex & Hreq & ->)]).
  - exists p. split_and!; done.
  - eexists. split; [exact Hp'|]. simpl. split_and!; try done.
    + lia.
    + intros Hnn.
      pose proof (process_sale_stock_bound now first last email items db pid p Hp Hnn Hc).
      lia.
    + intros Hoff. exfalso.
      apply Exists_exists in Hex as (it & Hin & Hit).
      apply (proj1 (Forall_forall _ _) Hall) in Hin as ((p0 & Hp0 & Hact & _) & _).
      rewrite Hit, Hp in Hp0. injection Hp0 as <-. congruence.
Qed.

(** X5: whatever a call of [process_sale] does, the catalog has the same
    products afterwards, each with its name, description, price, image, active
    flag and creation time; no stock has gone up, none has gone below zero,
    and a product that is not active is exactly as it was. *)
Theorem sale_call_keeps_the_catalog now first last email items db :
  dom (products (process_sale now first last email items db).2) = dom (products db) ∧
  ∀ pid p, products db !! pid = Some p →
    ∃ p', products (process_sale now first last email items db).2 !! pid = Some p' ∧
      p_name p' = p_name p ∧ p_description p' = p_description p ∧
      p_price p' = p_price p ∧ p_image_url p' = p_image_url p ∧
      p_is_active p' = p_is_active p ∧ p_created_at p' = p_created_at p ∧
      p_stock p' ≤ p_stock p ∧ (0 ≤ p_stock p → 0 ≤ p_stock p') ∧
      (p_is_active p = false → p' = p).
Proof.
  split; [apply process_sale_products_dom|].
  intros pid p Hp. by apply process_sale_catalog.
Qed.

(** ** The customers under a sale *)

Lemma resolve_customer_rows now first last email db id db' :
  resolve_customer now first last email db = inr (id, db') →
  (∀ j c, customers db !! j = Some c →
     ∃ c', customers db' !! j = Some c' ∧ c_email c' = c_email c ∧
           c_created_at c' = c_created_at c ∧ (c_email c ≠ email → c' = c)) ∧
  (size (customers db') ≤ S (size (customers db)))%nat.
Proof.
  unfold resolve_customer. intros H.
  destruct (select_customer_by_email email (customers db)) as [cid|] eqn:Hsel;
    exn_inv H; injection H as <- <-; simpl.
  - apply select_customer_by_email_Some in Hsel as (c0 & Hc0 & Hmail).
    split.
    + intros j c Hj. destruct (decide (cid = j)) as [->|Hne].
      * rewrite lookup_alter_eq, Hj. simpl. eexists. split; [done|].
        simpl. split_and!; try done. intros Hne. congruence.
      * rewrite lookup_alter_ne by done. eauto.
    + rewrite <- !size_dom, dom_alter_L. lia.
  - split.
    + intros j c Hj. rewrite lookup_insert_ne; [eauto|]. intros <-.
      rewrite uuid_generate_v4_fresh in Hj. done.
    + rewrite map_size_insert_None by apply uuid_generate_v4_fresh. lia.
Qed.

(** X6: a call of [process_sale] deletes no customer and adds at most one;
    every row keeps its e-mail and creation time, and a row with another
    e-mail than the request's is exactly as it was. *)
Theorem sale_call_touches_one_customer now first last email items db :
  (size (customers (process_sale now first last email items db).2)
     ≤ S (size (customers db)))%nat ∧
  ∀ j c, customers db !! j = Some c →
    ∃ c', customers (process_sale now first last email items db).2 !! j = Some c' ∧
      c_email c' = c_email c ∧ c_created_at c' = c_created_at c ∧
      (c_email c ≠ email → c' = c).
Proof.
  destruct (process_sale_customers now first last email items db)
    as [->|(id & db1 & Hres & ->)].
  - split; [lia|]. intros j c Hj. eauto.
  - destruct (resolve_customer_rows _ _ _ _ _ _ _ Hres) as (Hrows & Hsize).
    split; [exact Hsize | exact Hrows].
Qed.

(** ** The constraints of the tables, over any history *)

Lemma products_row_checks_inr p p' :
  products_row_checks p = inr p' →
  0 < p_price p' < 10 ^ 10 ∧ 0 ≤ p_stock p' < 2 ^ 31 ∧
  p_price p' = p_price p ∧ p_stock p' = p_stock p ∧
  varchar 100 (p_name p) = inr (p_name p') ∧
  p_description p' = p_description p ∧ p_image_url p' = p_image_url p ∧
  p_is_active p' = p_is_active p ∧ p_created_at p' = p_created_at p ∧
  p_updated_at p' = p_updated_at p.
Proof.
  unfold products_row_checks. intros H.
  apply bind_inr in H as (name & Hname & H).
  apply bind_inr in H as (price & Hprice & H).
  apply bind_inr in H as (stock & Hstock & H).
  apply bind_inr in H as ([] & Hc1 & H).
  apply bind_inr in H as ([] & Hc2 & H).
  apply mret_inr in H. subst p'. simpl.
  apply decimal_10_2_inr in Hprice as [-> Hprice].
  apply int4_inr in Hstock as [-> Hstock].
  apply check_inr in Hc1, Hc2.
  split_and!; try done; lia.
Qed.

(** What a mutation of the catalog does to the products: a row it leaves,
    a row that passed the checks of the table, or a row it has switched
    off. *)
Lemma apply_catalog_op_product (op : catalog_op) (db : database) pid p' :
  products (apply_catalog_op op db) !! pid = Some p' →
  products db !! pid = Some p' ∨
  (0 < p_price p' < 10 ^ 10 ∧ 0 ≤ p_stock p' < 2 ^ 31 ∧ p_is_active p' = true) ∨
  (∃ now p, products db !! pid = Some p ∧ p_is_active p = true ∧
            p' = set_inactive now p).
Proof.
  destruct op as [now d f|now id d f|now id]; simpl.
  - unfold createProduct.
    assert (Hgen : ∀ row,
      products (match products_row_checks row with
                | inl _ => (inl (AppErrors.internal "Failed to create product"), db)
                | inr row' =>
                    (inr (uuid_generate_v4 (products db), row'),
                     with_products (<[uuid_generate_v4 (products db) := row']> (products db)) db)
                end).2 !! pid = Some p' →
      p_is_active row = true →
      products db !! pid = Some p' ∨
      (0 < p_price p' < 10 ^ 10 ∧ 0 ≤ p_stock p' < 2 ^ 31 ∧ p_is_active p' = true) ∨
      (∃ now p, products db !! pid = Some p ∧ p_is_active p = true ∧
                p' = set_inactive now p)).
    { intros row H Hact.
      destruct (products_row_checks row) as [e|row'] eqn:Hchk; simpl in H; [by left|].
      destruct (decide (uuid_generate_v4 (products db) = pid)) as [<-|Hne].
      - rewrite lookup_insert_eq in H. injection H as <-.
        apply products_row_checks_inr in Hchk as (? & ? & _ & _ & _ & _ & _ & Ha & _).
        right. left. split; [lia|]. split; [lia|]. congruence.
      - rewrite lookup_insert_ne in H by done. by left. }
    destruct f as [[u|]|]; simpl; [| by left |]; intros H; eapply Hgen; eauto.
  - unfold updateProduct, getProductById.
    destruct (products db !! id) as [old|] eqn:Hold; [|by left].
    destruct (p_is_active old) eqn:Hact; [|by left].
    assert (Hgen : ∀ row,
      products (match products_row_checks row with
                | inl _ => (inl (AppErrors.internal "Failed to update product"), db)
                | inr row' =>
                    (inr (id, row'), with_products (<[id := row']> (products db)) db)
                end).2 !! pid = Some p' →
      p_is_active row = true →
      products db !! pid = Some p' ∨
      (0 < p_price p' < 10 ^ 10 ∧ 0 ≤ p_stock p' < 2 ^ 31 ∧ p_is_active p' = true) ∨
      (∃ now p, products db !! pid = Some p ∧ p_is_active p = true ∧
                p' = set_inactive now p)).
    { intros row H Hrow.
      destruct (products_row_checks row) as [e|row'] eqn:Hchk; simpl in H; [by left|].
      destruct (decide (id = pid)) as [<-|Hne].
      - rewrite lookup_insert_eq in H. injection H as <-.
        apply products_row_checks_inr in Hchk as (? & ? & _ & _ & _ & _ & _ & Ha & _).
        right. left. split; [lia|]. split; [lia|]. congruence.
      - rewrite lookup_insert_ne in H by done. by left. }
    destruct f as [[u|]|]; simpl; [| by left |]; intros H; eapply Hgen; eauto.
  - unfold deleteProduct, getProductById.
    destruct (products db !! id) as [old|] eqn:Hold; [|by left].
    destruct (p_is_active old) eqn:Hact; [|by left].
    simpl. intros H.
    destruct (decide (id = pid)) as [<-|Hne].
    + rewrite lookup_alter_eq, Hold in H. injection H as <-.
      right. right. eauto.
    + rewrite lookup_alter_ne in H by done. by left.
Qed.

Lemma apply_catalog_op_keeps_products (op : catalog_op) (db : database) :
  dom (products db) ⊆ dom (products (apply_catalog_op op db)).
Proof.
  destruct op as [now d f|now id d f|now id]; simpl.
  - unfold createProduct.
    destruct f as [[u|]|]; simpl; try done;
      (destruct (products_row_checks _); simpl; [done|]; rewrite dom_insert_L;
       apply union_subseteq_r).
  - unfold updateProduct. destruct (getProductById id db) as [e|old]; [done|].
    destruct f as [[u|]|]; simpl; try done;
      (destruct (products_row_checks _); simpl; [done|]; rewrite dom_insert_L;
       apply union_subseteq_r).
  - unfold deleteProduct. destruct (getProductById id db); [done|]. simpl.
    by rewrite dom_alter_L.
Qed.

Lemma process_sale_products_ok now first last email items db :
  products_ok (products db) →
  products_ok (products (process_sale now first last email items db).2).
Proof.
  intros Hok pid p' Hp'.
  assert (Hin : pid ∈ dom (products db)).
  { rewrite <- (process_sale_products_dom now first last email items db).
    apply elem_of_dom. eauto. }
  apply elem_of_dom in Hin as [p Hp].
  destruct (process_sale_catalog now first last email items db pid p Hp)
    as (p'' & Hp'' & _ & _ & Hprice & _ & _ & _ & Hle & Hnn & _).
  rewrite Hp' in Hp''. injection Hp'' as <-.
  destruct (Hok pid p Hp) as (? & ? & ?). specialize (Hnn ltac:(lia)). lia.
Qed.

(** The rows of [sales] and [sale_items] after a call: those it found, and
    the ones it has added. *)
Lemma process_sale_rows now first last email items db :
  (∀ i row, sales (process_sale now first last email items db).2 !! i = Some row →
     sales db !! i = Some row ∨
     (0 ≤ s_total row ∧
      s_customer_id row ∈ dom (customers (process_sale now first last email items db).2))) ∧
  (∀ i row, sale_items (process_sale now first last email items db).2 !! i = Some row →
     sale_items db !! i = Some row ∨ ∃ sid, priced_at (products db) sid row).
Proof.
  destruct (process_sale_outcome now first last email items db)
    as [e _|cid db1 message Hres _|cid db1 sid db2 db3 total db4 Hres _ Hins Hitems Hupd].
  - split; intros i row Hi; by left.
  - destruct (resolve_customer_frame _ _ _ _ _ _ _ Hres) as (_ & Hs & Hsi & _).
    rewrite Hs, Hsi. split; intros i row Hi; by left.
  - destruct (resolve_customer_frame _ _ _ _ _ _ _ Hres) as (Hps1 & Hs1 & Hsi1 & _).
    apply insert_sale_inr in Hins as (Hsid & Hcid & Hc2 & Hps2 & Hsi2 & Hs2).
    destruct (process_items_frame _ _ _ _ _ _ _ Hitems) as (Hc3 & Hs3 & _).
    destruct (process_items_total _ _ _ _ _ _ _ Hitems) as (_ & _ & _ & Hnew).
    apply update_sale_total_inr in Hupd as (Htot & Hc4 & _ & Hsi4 & Hs4).
    split.
    + intros i row. rewrite Hs4, Hs3, Hs2.
      destruct (decide (sid = i)) as [<-|Hne].
      * rewrite lookup_alter_eq, lookup_insert_eq. simpl. intros [= <-]. right.
        simpl. split; [done|]. by rewrite Hc4, Hc3, Hc2.
      * rewrite lookup_alter_ne, lookup_insert_ne, Hs1 by done. by left.
    + intros i row Hi. rewrite Hsi4 in Hi.
      destruct (Hnew i row Hi) as [Hold|Hp].
      * left. by rewrite Hsi2, Hsi1 in Hold.
      * right. exists sid. by rewrite Hps2, Hps1 in Hp.
Qed.

Lemma process_sale_emails_unique now first last email items db :
  emails_unique (customers db) →
  emails_unique (customers (process_sale now first last email items db).2).
Proof.
  intros Huniq.
  destruct (process_sale_customers now first last email items db)
    as [->|(id & db1 & Hres & ->)]; [done|].
  by eapply resolve_customer_emails_unique.
Qed.

Lemma apply_event_checks (ev : store_event) (db : database) :
  checks_hold db → checks_hold (apply_event ev db).
Proof.
  intros (Hps & Hcs & Hss & Hsis). destruct ev as [r|op]; simpl.
  - unfold run_request.
    destruct (process_sale_rows (r_now r) (r_first r) (r_last r) (r_email r) (r_items r) db)
      as (Hsales & Hitems).
    split_and!.
    + by apply process_sale_products_ok.
    + by apply process_sale_emails_unique.
    + intros i row Hi. destruct (Hsales i row Hi) as [Hold|[Hnn _]]; [|done].
      by apply (Hss i).
    + intros i row Hi.
      destruct (Hitems i row Hi) as [Hold|(sid & _ & Hq & Hsub & p & Hp & Hu)].
      * by apply (Hsis i).
      * destruct (Hps _ _ Hp) as (Hprice & _). split_and!; [done|lia|nia].
  - destruct (apply_catalog_op_frame op db) as (Hs & Hi & Hc).
    split_and!.
    + intros pid p' Hp'.
      destruct (apply_catalog_op_product op db pid p' Hp')
        as [Hold|[(? & ? & _)|(now & p & Hp & _ & ->)]].
      * by apply (Hps pid).
      * split; [lia|done].
      * simpl. by apply (Hps pid).
    + by rewrite Hc.
    + by rewrite Hs.
    + by rewrite Hi.
Qed.

Lemma shop_checks_hold : checks_hold shop.
Proof.
  split_and!.
  - intros pid p Hp. simpl in Hp.
    destruct (decide (pid = 1%N)) as [->|H1];
      [rewrite lookup_insert_eq in Hp|rewrite lookup_insert_ne in Hp by done].
    { injection Hp as <-. simpl. lia. }
    destruct (decide (pid = 2%N)) as [->|H2];
      [rewrite lookup_insert_eq in Hp|rewrite lookup_insert_ne in Hp by done].
    { injection Hp as <-. simpl. lia. }
    apply lookup_singleton_Some in Hp as [_ <-]. simpl. lia.
  - intros i j ci cj Hi Hj _. simpl in Hi, Hj.
    apply lookup_singleton_Some in Hi as [<- _].
    apply lookup_singleton_Some in Hj as [<- _]. done.
  - intros i row Hi. simpl in Hi. by rewrite lookup_empty in Hi.
  - intros i row Hi. simpl in Hi. by rewrite lookup_empty in Hi.
Qed.

(** X7: the constraints of the tables ([price > 0], [stock >= 0] within an
    [INTEGER], unique e-mails, [total >= 0], [quantity > 0],
    [unit_price >= 0], [subtotal >= 0]) hold after any sequence of sale calls
    and catalog mutations, whatever their outcomes, when they held before. *)
Theorem store_checks_are_kept (evs : list store_event) (db : database) :
  checks_hold db → checks_hold (run_events evs db).
Proof.
  revert db. induction evs as [|ev rest IH]; intros db H; simpl; [done|].
  apply IH. by apply apply_event_checks.
Qed.

Lemma store_checks_are_kept_witness :
  checks_hold shop ∧ checks_hold (run_events demo_events shop).
Proof.
  split; [exact shop_checks_hold|].
  exact (store_checks_are_kept demo_events shop shop_checks_hold).
Defined.

(** ** Foreign keys *)

Lemma apply_event_references (ev : store_event) (db : database) :
  references_hold db → references_hold (apply_event ev db).
Proof.
  intros (Hsc & Hss & Hsp). destruct ev as [r|op]; simpl.
  - unfold run_request.
    destruct (process_sale_rows (r_now r) (r_first r) (r_last r) (r_email r) (r_items r) db)
      as (Hsales & Hitems).
    split_and!.
    + intros i row Hi. destruct (Hsales i row Hi) as [Hold|[_ Hin]]; [|done].
      apply (process_sale_keeps_customers (r_now r) (r_first r) (r_last r) (r_email r)
               (r_items r) db).
      by apply (Hsc i).
    + by apply process_sale_keeps_sales.
    + intros i row Hi. rewrite process_sale_products_dom.
      destruct (Hitems i row Hi) as [Hold|(sid & _ & _ & _ & p & Hp & _)].
      * by apply (Hsp i).
      * apply elem_of_dom. eauto.
  - destruct (apply_catalog_op_frame op db) as (Hs & Hi & Hc).
    split_and!.
    + intros i row Hrow. rewrite Hc. apply (Hsc i). by rewrite <- Hs.
    + intros i row Hrow. rewrite Hs. apply (Hss i). by rewrite <- Hi.
    + intros i row Hrow. apply apply_catalog_op_keeps_products.
      apply (Hsp i). by rewrite <- Hi.
Qed.

Lemma shop_references_hold : references_hold shop.
Proof.
  split_and!; intros i row Hi; simpl in Hi; by rewrite lookup_empty in Hi.
Qed.

(** X8: the three foreign keys (a sale has its customer, a sale item has
    its sale and its product) hold after any sequence of sale calls and
    catalog mutations when they held before: nothing the API does removes
    a row that another one refers to. *)
Theorem store_references_are_kept (evs : list store_event) (db : database) :
  references_hold db → references_hold (run_events evs db).
Proof.
  revert db. induction evs as [|ev rest IH]; intros db H; simpl; [done|].
  apply IH. by apply apply_event_references.
Qed.

Lemma store_references_are_kept_witness :
  references_hold shop ∧ references_hold (run_events demo_events shop).
Proof.
  split; [exact shop_references_hold|].
  exact (store_references_are_kept demo_events shop shop_references_hold).
Defined.

(** ** The totals of the sales and the subtotals of their items *)

Lemma sum_of_totals_insert (i : uuid) (row : sale_row) (rows : gmap uuid sale_row) :
  rows !! i = None →
  sum_of_totals (<[i := row]> rows) = s_total row + sum_of_totals rows.
Proof.
  intros Hi. unfold sum_of_totals.
  rewrite map_fold_insert_L; [done| |done].
  intros. lia.
Qed.

Lemma sum_of_subtotals_insert (i : uuid) (row : sale_item_row)
    (rows : gmap uuid sale_item_row) :
  rows !! i = None →
  sum_of_subtotals (<[i := row]> rows) = si_subtotal row + sum_of_subtotals rows.
Proof.
  intros Hi. unfold sum_of_subtotals.
  rewrite map_fold_insert_L; [done| |done].
  intros. lia.
Qed.

Lemma process_items_subtotals now sid items db t db' t' :
  process_items now sid items (db, t) = inr (db', t') →
  sum_of_subtotals (sale_items db') - sum_of_subtotals (sale_items db) = t' - t.
Proof.
  revert db t. induction items as [|it rest IH]; intros db t H; simpl in H.
  - apply mret_inr in H. simplify_eq. lia.
  - apply bind_inr in H as ([db1 t1] & H1 & H).
    apply process_item_inr in H1
      as (p & _ & _ & _ & _ & _ & Ht1 & _ & _ & _ & _ & _ & Hrows).
    specialize (IH _ _ H). rewrite Hrows in IH.
    rewrite sum_of_subtotals_insert in IH by apply uuid_generate_v4_fresh.
    simpl in IH. lia.
Qed.

(** What a call adds to the two sums: the total it returns, to both, when it
    commits; nothing otherwise. *)
Lemma process_sale_sums now first last email items db :
  ∃ amount,
    sum_of_totals (sales (process_sale now first last email items db).2) =
      sum_of_totals (sales db) + amount ∧
    sum_of_subtotals (sale_items (process_sale now first last email items db).2) =
      sum_of_subtotals (sale_items db) + amount ∧
    match (process_sale now first last email items db).1 with
    | Success _ _ total => amount = total
    | Failure _ => amount = 0
    end.
Proof.
  destruct (process_sale_outcome now first last email items db)
    as [e _|cid db1 message Hres _|cid db1 sid db2 db3 total db4 Hres _ Hins Hitems Hupd].
  - exists 0. split_and!; [lia|lia|done].
  - destruct (resolve_customer_frame _ _ _ _ _ _ _ Hres) as (_ & -> & -> & _).
    exists 0. split_and!; [lia|lia|done].
  - destruct (resolve_customer_frame _ _ _ _ _ _ _ Hres) as (_ & Hs1 & Hsi1 & _).
    apply insert_sale_inr in Hins as (Hsid & _ & _ & _ & Hsi2 & Hs2).
    destruct (process_items_frame _ _ _ _ _ _ _ Hitems) as (_ & Hs3 & _).
    pose proof (process_items_subtotals _ _ _ _ _ _ _ Hitems) as Hsum.
    apply update_sale_total_inr in Hupd as (_ & _ & _ & Hsi4 & Hs4).
    exists total. split_and!; [| |done].
    + rewrite Hs4, Hs3, Hs2, alter_insert_eq, sum_of_totals_insert, Hs1.
      * simpl. lia.
      * rewrite Hsid. apply uuid_generate_v4_fresh.
    + rewrite Hsi4. rewrite Hsi2, Hsi1 in Hsum. lia.
Qed.

Lemma apply_event_sums (ev : store_event) (db : database) :
  sum_of_totals (sales (apply_event ev db)) - sum_of_totals (sales db) =
  sum_of_subtotals (sale_items (apply_event ev db)) - sum_of_subtotals (sale_items db).
Proof.
  destruct ev as [r|op]; simpl.
  - unfold run_request.
    destruct (process_sale_sums (r_now r) (r_first r) (r_last r) (r_email r) (r_items r) db)
      as (amount & -> & -> & _). lia.
  - destruct (apply_catalog_op_frame op db) as (-> & -> & _). lia.
Qed.

(** X9: over any sequence of sale calls and catalog mutations, the exact
    sum of the totals stored in [sales] grows by exactly what the exact sum
    of the subtotals stored in [sale_items] grows by: the two stored sums
    never drift apart, also when prices change afterwards. *)
Theorem stored_totals_grow_with_stored_subtotals (evs : list store_event) (db : database) :
  sum_of_totals (sales (run_events evs db)) - sum_of_totals (sales db) =
  sum_of_subtotals (sale_items (run_events evs db)) - sum_of_subtotals (sale_items db).
Proof.
  revert db. induction evs as [|ev rest IH]; intros db; simpl; [lia|].
  specialize (IH (apply_event ev db)).
  pose proof (apply_event_sums ev db). lia.
Qed.

(** ** The rows of a committed sale *)

Lemma process_items_new_rows now sid items db t db' t' :
  process_items now sid items (db, t) = inr (db', t') →
  ∃ new : list (uuid * sale_item_row),
    map_to_list (sale_items db') ≡ₚ new ++ map_to_list (sale_items db) ∧
    Forall2 (λ it kr, ∃ p, products db !! product_id it = Some p ∧
                           kr.2 = new_sale_item now sid it p) items new.
Proof.
  revert db t. induction items as [|it rest IH]; intros db t H; simpl in H.
  - apply mret_inr in H. simplify_eq. exists []. split; [done|constructor].
  - apply bind_inr in H as ([db1 t1] & H1 & H).
    apply process_item_inr in H1
      as (p & Hp & _ & _ & _ & _ & _ & _ & _ & _ & _ & Hps & Hrows).
    destruct (IH _ _ H) as (new & Hperm & Hall).
    exists ((uuid_generate_v4 (sale_items db), new_sale_item now sid it p) :: new).
    split.
    + rewrite Hperm, Hrows.
      rewrite map_to_list_insert by apply uuid_generate_v4_fresh.
      symmetry. apply Permutation_middle.
    + constructor; [eauto|].
      eapply Forall2_impl; [exact Hall|]. simpl.
      intros i kr (p1 & Hp1 & Hkr). rewrite Hps in Hp1.
      destruct (decide (product_id it = product_id i)) as [Heq|Hne].
      * rewrite <- Heq, lookup_insert_eq in Hp1. injection Hp1 as <-.
        exists p. rewrite <- Heq. split; [done|]. rewrite Hkr. done.
      * rewrite lookup_insert_ne in Hp1 by done. eauto.
Qed.

Lemma filter_all {A} (P : A → Prop) `{!∀ x, Decision (P x)} (l : list A) :
  Forall P l → filter P l = l.
Proof.
  induction 1 as [|x l Hx _ IH]; [done|].
  by rewrite filter_cons_True, IH.
Qed.

Lemma filter_none {A} (P : A → Prop) `{!∀ x, Decision (P x)} (l : list A) :
  Forall (λ x, ¬ P x) l → filter P l = [].
Proof.
  induction 1 as [|x l Hx _ IH]; [done|].
  by rewrite filter_cons_False.
Qed.

(** What a committed call has done, step by step, in terms of the store it
    started from. *)
Lemma process_sale_success now first last email items db sid cid total db' :
  process_sale now first last email items db = (Success sid cid total, db') →
  ∃ db1 new,
    resolve_customer now first last email db = inr (cid, db1) ∧
    customers db' = customers db1 ∧ cid ∈ dom (customers db1) ∧
    sid = uuid_generate_v4 (sales db) ∧
    sales db' = <[sid := {| s_customer_id := cid; s_total := total;
                            s_created_at := now; s_updated_at := now |}]> (sales db) ∧
    map_to_list (sale_items db') ≡ₚ new ++ map_to_list (sale_items db) ∧
    Forall2 (λ it kr, ∃ p, products db !! product_id it = Some p ∧
                           kr.2 = new_sale_item now sid it p) items new.
Proof.
  intros H. pose proof (process_sale_outcome now first last email items db) as Ho.
  rewrite H in Ho. simpl in Ho.
  inversion Ho as [| |cid' db1 sid' db2 db3 total' db4 Hres Hval Hins Hitems Hupd]; subst.
  destruct (resolve_customer_frame _ _ _ _ _ _ _ Hres) as (Hps1 & Hs1 & Hsi1 & _).
  apply insert_sale_inr in Hins as (Hsid & Hcid & Hc2 & Hps2 & Hsi2 & Hs2).
  destruct (process_items_frame _ _ _ _ _ _ _ Hitems) as (Hc3 & Hs3 & _).
  destruct (process_items_new_rows _ _ _ _ _ _ _ Hitems) as (new & Hperm & Hall).
  apply update_sale_total_inr in Hupd as (_ & Hc4 & _ & Hsi4 & Hs4).
  exists db1, new. split_and!.
  - done.
  - congruence.
  - done.
  - by rewrite Hsid, Hs1.
  - rewrite Hs4, Hs3, Hs2, alter_insert_eq, Hs1. done.
  - rewrite Hsi4, Hperm, Hsi2, Hsi1. done.
  - by rewrite Hps2, Hps1 in Hall.
Qed.

(** X10: a call that commits adds exactly one sale and exactly one sale
    item per line of the request (lines of the same product are not
    merged); it adds or removes no product. *)
Theorem commit_adds_one_sale_and_a_row_per_line
    now first last email items db sid cid total db' :
  process_sale now first last email items db = (Success sid cid total, db') →
  size (sales db') = S (size (sales db)) ∧
  size (sale_items db') = (size (sale_items db) + length items)%nat ∧
  dom (products db') = dom (products db).
Proof.
  intros H.
  pose proof (process_sale_products_dom now first last email items db) as Hdom.
  rewrite H in Hdom. simpl in Hdom.
  destruct (process_sale_success _ _ _ _ _ _ _ _ _ _ H)
    as (db1 & new & _ & _ & _ & Hsid & Hs & Hperm & Hall).
  split_and!.
  - rewrite Hs, map_size_insert_None; [done|].
    rewrite Hsid. apply uuid_generate_v4_fresh.
  - rewrite <- !length_map_to_list, Hperm, length_app.
    apply Forall2_length in Hall. lia.
  - done.
Qed.

Lemma commit_adds_one_sale_and_a_row_per_line_witness :
  size (sales (process_sale 5 "Ann" "Lee" "a@x.com" [line 1 3; line 3 1; line 1 2] shop).2) = 1%nat ∧
  size (sale_items (process_sale 5 "Ann" "Lee" "a@x.com" [line 1 3; line 3 1; line 1 2] shop).2)
    = 3%nat.
Proof.
  pose proof (commit_adds_one_sale_and_a_row_per_line 5 "Ann" "Lee" "a@x.com"
                [line 1 3; line 3 1; line 1 2] shop 0%N 1%N 2800
                (process_sale 5 "Ann" "Lee" "a@x.com" [line 1 3; line 3 1; line 1 2] shop).2
                ltac:(vm_compute; reflexivity)) as (Hs & Hi & _).
  split; [exact Hs | exact Hi].
Defined.

(** ** Reading a committed sale back *)

Lemma format_new_rows now sid (ps : gmap uuid product_row) (db' : database) items
    (new : list (uuid * sale_item_row)) :
  (∀ pid p, ps !! pid = Some p →
     ∃ p', products db' !! pid = Some p' ∧ p_name p' = p_name p) →
  Forall2 (λ it kr, ∃ p, ps !! product_id it = Some p ∧
                         kr.2 = new_sale_item now sid it p) items new →
  ∃ read, omap (format_sale_item db') new = read ∧
          Forall2 (item_matches_line ps) items read.
Proof.
  intros Hnames. induction 1 as [|it kr items new (p & Hp & Hkr) _ (read & Hread & Hall)].
  - exists []. split; [done|constructor].
  - destruct (Hnames _ _ Hp) as (p' & Hp' & Hname).
    subst read. destruct kr as [k row]. simpl in Hkr. subst row.
    exists ({| fi_id := k; fi_productId := product_id it; fi_productName := p_name p';
               fi_quantity := quantity it; fi_unitPrice := p_price p;
               fi_subtotal := p_price p * quantity it |}
            :: omap (format_sale_item db') new).
    split.
    + change (omap (format_sale_item db') ((k, new_sale_item now sid it p) :: new))
        with (match format_sale_item db' (k, new_sale_item now sid it p) with
              | Some y => y :: omap (format_sale_item db') new
              | None => omap (format_sale_item db') new
              end).
      unfold format_sale_item at 1. simpl. rewrite Hp'. reflexivity.
    + constructor; [|done]. unfold item_matches_line. simpl.
      split_and!; try done. exists p. split_and!; done.
Qed.

(** X11: a sale that has just been committed reads back through
    [getSaleById] as it was asked for: its id and total as returned, its
    customer with the names and e-mail of the request, and one item per
    line, each with the product, the quantity, and the name, price and
    subtotal at the catalog of the time of the call.  The items come in some
    order: they carry the same [created_at]. *)
Theorem committed_sale_reads_back now first last email items db sid cid total db' :
  sale_items_reference_sales db →
  customer_fits first last email →
  process_sale now first last email items db = (Success sid cid total, db') →
  ∃ sale read, getSaleById sid db' = inr sale ∧
    fs_id sale = sid ∧ fs_total sale = total ∧ fs_createdAt sale = now ∧
    fs_customer sale = {| sc_id := cid; sc_firstName := first;
                          sc_lastName := last; sc_email := email |} ∧
    fs_items sale ≡ₚ read ∧
    Forall2 (item_matches_line (products db)) items read.
Proof.
  intros Hfk Hfit H.
  destruct (process_sale_success _ _ _ _ _ _ _ _ _ _ H)
    as (db1 & new & Hres & Hc & _ & Hsid & Hs & Hperm & Hall).
  destruct (resolve_customer_fits now first last email db Hfit)
    as (id & db1' & c & Hres' & Hcrow & Hf & Hl & He & _).
  rewrite Hres in Hres'. injection Hres' as <- <-.
  assert (Hnames : ∀ pid p, products db !! pid = Some p →
            ∃ p', products db' !! pid = Some p' ∧ p_name p' = p_name p).
  { intros pid p Hp.
    destruct (process_sale_catalog now first last email items db pid p Hp)
      as (p' & Hp' & Hname & _).
    rewrite H in Hp'. eauto. }
  destruct (format_new_rows now sid (products db) db' items new Hnames Hall)
    as (read & Hread & Hmatch).
  assert (Hfresh : sales db !! sid = None).
  { rewrite Hsid. apply uuid_generate_v4_fresh. }
  assert (Hrows : sale_item_rows sid db' ≡ₚ new).
  { unfold sale_item_rows. rewrite merge_sort_Permutation, Hperm, filter_app.
    rewrite (filter_all _ new), (filter_none _ (map_to_list (sale_items db))).
    - by rewrite app_nil_r.
    - apply Forall_forall. intros [i row] Hin. simpl.
      apply elem_of_map_to_list in Hin. apply Hfk in Hin.
      intros Heq. rewrite Heq in Hin. apply elem_of_dom in Hin as [? Hin]. congruence.
    - clear -Hall. induction Hall as [|it kr items new (p & _ & Hkr) _ IH];
        constructor; [|done]. by rewrite Hkr. }
  unfold getSaleById. rewrite Hs, lookup_insert_eq. simpl. rewrite Hc, Hcrow.
  eexists _, read. split; [reflexivity|]. simpl.
  split_and!; try done.
  - by rewrite Hf, Hl, He.
  - by rewrite Hrows, Hread.
Qed.

Lemma committed_sale_reads_back_witness :
  ∃ sale read, getSaleById 0%N
      (process_sale 5 "Ann" "Lee" "a@x.com" [line 1 3; line 3 1] shop).2 = inr sale ∧
    fs_total sale = 1800 ∧ fs_items sale ≡ₚ read ∧
    Forall2 (item_matches_line (products shop)) [line 1 3; line 3 1] read.
Proof.
  assert (Hfit : customer_fits "Ann" "Lee" "a@x.com").
  { unfold customer_fits. simpl. lia. }
  destruct (committed_sale_reads_back 5 "Ann" "Lee" "a@x.com" [line 1 3; line 3 1] shop
              0%N 1%N 1800
              (process_sale 5 "Ann" "Lee" "a@x.com" [line 1 3; line 3 1] shop).2
              (proj1 (proj2 shop_references_hold)) Hfit ltac:(vm_compute; reflexivity))
    as (sale & read & Hget & _ & Htot & _ & _ & Hitems & Hmatch).
  exists sale, read. split_and!; done.
Defined.

(** ** Deleting a product *)

Lemma getProductById_inr id db p :
  getProductById id db = inr p ↔ products db !! id = Some p ∧ p_is_active p = true.
Proof.
  unfold getProductById. destruct (products db !! id) as [p0|]; [|split; [done|]].
  - destruct (p_is_active p0) eqn:Hact; split.
    + intros [= <-]. done.
    + intros [[= <-] _]. done.
    + done.
    + intros [[= <-] ?]. congruence.
  - intros [? _]. done.
Qed.

Lemma getProductById_inactive id db p :
  products db !! id = Some p → p_is_active p = false →
  getProductById id db = inl (AppErrors.notFound "Product not found").
Proof. intros Hp Hoff. unfold getProductById. by rewrite Hp, Hoff. Qed.

(** X12: deleting an active product keeps its row, switched off, and
    touches no other; from then on the catalog service treats the product as
    absent: reading it, updating it and deleting it again all answer 404 and
    change nothing. *)
Theorem deleted_product_is_kept_but_hidden now id db p :
  products db !! id = Some p → p_is_active p = true →
  (deleteProduct now id db).1 = inr tt ∧
  products (deleteProduct now id db).2 !! id = Some (set_inactive now p) ∧
  (∀ j, j ≠ id → products (deleteProduct now id db).2 !! j = products db !! j) ∧
  getProductById id (deleteProduct now id db).2 =
    inl (AppErrors.notFound "Product not found") ∧
  (∀ now' d f, updateProduct now' id d f (deleteProduct now id db).2 =
     (inl (AppErrors.notFound "Product not found"), (deleteProduct now id db).2)) ∧
  (∀ now', deleteProduct now' id (deleteProduct now id db).2 =
     (inl (AppErrors.notFound "Product not found"), (deleteProduct now id db).2)).
Proof.
  intros Hp Hact.
  assert (Hget : getProductById id db = inr p) by (by apply getProductById_inr).
  assert (Hdel : deleteProduct now id db =
                 (inr tt, with_products (alter (set_inactive now) id (products db)) db)).
  { unfold deleteProduct. by rewrite Hget. }
  rewrite Hdel. simpl.
  assert (Hrow : alter (set_inactive now) id (products db) !! id = Some (set_inactive now p)).
  { by rewrite lookup_alter_eq, Hp. }
  assert (Hgone : getProductById id
            (with_products (alter (set_inactive now) id (products db)) db) =
            inl (AppErrors.notFound "Product not found")).
  { eapply getProductById_inactive; [exact Hrow|done]. }
  split_and!; try done.
  - intros j Hj. by rewrite lookup_alter_ne.
  - intros now' d f. unfold updateProduct. by rewrite Hgone.
  - intros now'. unfold deleteProduct. by rewrite Hgone.
Qed.

Lemma deleted_product_is_kept_but_hidden_witness :
  products (deleteProduct 7 3%N shop).2 !! 3%N = Some (set_inactive 7 decaf) ∧
  getProductById 3%N (deleteProduct 7 3%N shop).2 =
    inl (AppErrors.notFound "Product not found").
Proof.
  destruct (deleted_product_is_kept_but_hidden 7 3%N shop decaf eq_refl eq_refl)
    as (_ & Hrow & _ & Hget & _).
  split; [exact Hrow | exact Hget].
Defined.

(** ** A product that is not active *)

Lemma apply_event_inactive (ev : store_event) (db : database) pid p :
  products db !! pid = Some p → p_is_active p = false →
  products (apply_event ev db) !! pid = Some p.
Proof.
  intros Hp Hoff. destruct ev as [r|op]; simpl.
  - unfold run_request.
    destruct (process_sale_catalog (r_now r) (r_first r) (r_last r) (r_email r)
                (r_items r) db pid p Hp) as (p' & Hp' & _ & _ & _ & _ & _ & _ & _ & _ & Hsame).
    by rewrite Hp', (Hsame Hoff).
  - destruct op as [now d f|now id d f|now id]; simpl.
    + unfold createProduct.
      destruct f as [[u|]|]; simpl; try done;
        (destruct (products_row_checks _); simpl; [done|];
         rewrite lookup_insert_ne; [done|]; intros Heq;
         rewrite <- Heq, uuid_generate_v4_fresh in Hp; done).
    + unfold updateProduct.
      destruct (getProductById id db) as [e|old] eqn:Hget; [done|].
      apply getProductById_inr in Hget as (Hold & Hact).
      assert (Hne : id ≠ pid) by (intros ->; congruence).
      destruct f as [[u|]|]; simpl; try done;
        (destruct (products_row_checks _); simpl; [done|];
         rewrite lookup_insert_ne; done).
    + unfold deleteProduct.
      destruct (getProductById id db) as [e|old] eqn:Hget; [done|].
      apply getProductById_inr in Hget as (Hold & Hact).
      assert (Hne : id ≠ pid) by (intros ->; congruence).
      simpl. by rewrite lookup_alter_ne.
Qed.

(** X13: a product that is not active is frozen: no sequence of sale calls
    and catalog mutations changes anything of its row, and none makes it
    active again. *)
Theorem inactive_product_is_frozen (evs : list store_event) (db : database) pid p :
  products db !! pid = Some p → p_is_active p = false →
  products (run_events evs db) !! pid = Some p.
Proof.
  revert db. induction evs as [|ev rest IH]; intros db Hp Hoff; simpl; [done|].
  apply IH; [|done]. by apply apply_event_inactive.
Qed.

(** The history of the examples with attempts on the product that is off. *)
Lemma inactive_product_is_frozen_witness :
  products (run_events
              (CatalogCall (UpdateProduct 4 2%N
                 {| up_name := Some "Mocha 2"; up_description := None;
                    up_price := None; up_stock := Some 9 |} None)
               :: SaleCall {| r_now := 4; r_first := "Ann"; r_last := "Lee";
                              r_email := "a@x.com"; r_items := [line 2 1] |}
               :: demo_events) shop) !! 2%N = Some mocha.
Proof.
  exact (inactive_product_is_frozen _ shop 2%N mocha eq_refl eq_refl).
Defined.

(** X14: once a product has been deleted, a sale whose lines before it are
    valid and whose next line names it is rejected with the message of the
    inactive product and its name, whatever the quantity; no stock, sale or
    sale item changes. *)
Theorem sale_of_deleted_product_is_rejected
    now now' first last email pre it rest db p cid db1 :
  products db !! product_id it = Some p → p_is_active p = true →
  Forall (line_valid (products (deleteProduct now (product_id it) db).2)) pre →
  resolve_customer now' first last email (deleteProduct now (product_id it) db).2 =
    inr (cid, db1) →
  process_sale now' first last email (pre ++ it :: rest)
      (deleteProduct now (product_id it) db).2 =
    (Failure ("Product is not active: " +:+ p_name p), db1) ∧
  products db1 = products (deleteProduct now (product_id it) db).2 ∧
  sales db1 = sales db ∧ sale_items db1 = sale_items db.
Proof.
  intros Hp Hact Hpre Hres.
  assert (Hget : getProductById (product_id it) db = inr p) by (by apply getProductById_inr).
  assert (Hdel : deleteProduct now (product_id it) db =
            (inr tt, with_products (alter (set_inactive now) (product_id it) (products db)) db)).
  { unfold deleteProduct. by rewrite Hget. }
  rewrite Hdel in *. simpl in *.
  destruct (resolve_customer_frame _ _ _ _ _ _ _ Hres) as (Hps & Hs & Hsi & _).
  split_and!; try done.
  eapply process_sale_rejects; [exact Hres|]. simpl.
  rewrite validate_items_app_valid by done. simpl.
  by rewrite lookup_alter_eq, Hp.
Qed.

Lemma sale_of_deleted_product_is_rejected_witness :
  process_sale 8 "Ann" "Lee" "a@x.com" ([line 1 1] ++ line 3 1 :: [])
      (deleteProduct 7 3%N shop).2 =
    (Failure "Product is not active: Decaf",
     with_customers (alter (set_customer_names 8 "Ann" "Lee") 1%N
                       (customers (deleteProduct 7 3%N shop).2))
       (deleteProduct 7 3%N shop).2).
Proof.
  assert (Hpre : Forall (line_valid (products (deleteProduct 7 (product_id (line 3 1)) shop).2))
                   [line 1 1]).
  { constructor; [|constructor]. exists espresso. split; [reflexivity|].
    split; [reflexivity|]. simpl. lia. }
  assert (Hres : resolve_customer 8 "Ann" "Lee" "a@x.com"
                   (deleteProduct 7 (product_id (line 3 1)) shop).2 =
                 inr (1%N, with_customers (alter (set_customer_names 8 "Ann" "Lee") 1%N
                                             (customers (deleteProduct 7 3%N shop).2))
                             (deleteProduct 7 3%N shop).2)).
  { vm_compute. reflexivity. }
  exact (proj1 (sale_of_deleted_product_is_rejected 7 8 "Ann" "Lee" "a@x.com"
                  [line 1 1] (line 3 1) [] shop decaf _ _ eq_refl eq_refl Hpre Hres)).
Defined.

(** ** Creating a product *)

Lemma createProduct_inr now d f db id row db' :
  createProduct now d f db = (inr (id, row), db') →
  ∃ row0, products_row_checks row0 = inr row ∧
    p_price row0 = round_2 (cp_price d) ∧ p_stock row0 = cp_stock d ∧
    p_name row0 = cp_name d ∧ p_is_active row0 = true ∧
    p_created_at row0 = now ∧ p_updated_at row0 = now ∧
    id = uuid_generate_v4 (products db) ∧
    db' = with_products (<[id := row]> (products db)) db.
Proof.
  unfold createProduct. intros H.
  destruct f as [[u|]|]; simpl in H; [| discriminate H |];
    match type of H with
    | context [products_row_checks ?r] =>
        destruct (products_row_checks r) as [e|row'] eqn:Hchk;
          [discriminate H|]; injection H as <- <- <-; exists r; done
    end.
Qed.

(** X15: a product that [createProduct] returns is in the catalog under a
    new id and reads back through [getProductById] as returned: active, with
    the price rounded to cents and positive, the stock as given and not
    negative; every other product, and every customer, sale and sale item,
    is as before. *)
Theorem created_product_reads_back now d f db id row db' :
  createProduct now d f db = (inr (id, row), db') →
  products db !! id = None ∧
  getProductById id db' = inr row ∧
  p_is_active row = true ∧
  p_price row = round_2 (cp_price d) ∧ 0 < p_price row < 10 ^ 10 ∧
  p_stock row = cp_stock d ∧ 0 ≤ p_stock row < 2 ^ 31 ∧
  p_created_at row = now ∧
  (∀ j, j ≠ id → products db' !! j = products db !! j) ∧
  customers db' = customers db ∧ sales db' = sales db ∧ sale_items db' = sale_items db.
Proof.
  intros H.
  apply createProduct_inr in H
    as (row0 & Hchk & Hprice & Hstock & _ & Hact & Hcr & _ & -> & ->).
  apply products_row_checks_inr in Hchk
    as (Hp & Hs & Hp' & Hs' & _ & _ & _ & Ha & Hc & _).
  split_and!.
  - apply uuid_generate_v4_fresh.
  - apply getProductById_inr. simpl. rewrite lookup_insert_eq. split; [done|congruence].
  - congruence.
  - congruence.
  - lia.
  - lia.
  - congruence.
  - lia.
  - lia.
  - congruence.
  - intros j Hj. simpl. by rewrite lookup_insert_ne.
  - done.
  - done.
  - done.
Qed.

Lemma created_product_reads_back_witness :
  getProductById 4%N
    (createProduct 4 {| cp_name := "Latte"; cp_description := Some "";
                        cp_price := 1999 # 1000; cp_stock := 7 |} None shop).2 =
  inr {| p_name := "Latte"; p_description := None; p_price := 200; p_stock := 7;
         p_image_url := None; p_is_active := true; p_created_at := 4; p_updated_at := 4 |}.
Proof.
  exact (proj1 (proj2 (created_product_reads_back 4
           {| cp_name := "Latte"; cp_description := Some "";
              cp_price := 1999 # 1000; cp_stock := 7 |} None shop 4%N _ _
           ltac:(vm_compute; reflexivity)))).
Defined.

(** ** A price below half a cent *)

Lemma round_2_small (q : Q) :
  (0 <= q)%Q → (q < 1 # 200)%Q → round_2 q = 0.
Proof.
  unfold Qle, Qlt, round_2. simpl. intros Hnn Hlt.
  destruct (Z.leb_spec 0 (Qnum q * 100)); [|lia].
  apply Z.div_small. pose proof (Pos2Z.is_pos (Qden q)). lia.
Qed.

(** X16: a positive price below half a cent rounds to 0.00 in the column,
    which [CHECK (price > 0)] refuses: [createProduct] answers with the
    internal error and stores nothing, although the price is positive. *)
Theorem price_below_half_a_cent_is_refused now d f db :
  (0 < cp_price d)%Q → (cp_price d < 1 # 200)%Q → f ≠ Some None →
  createProduct now d f db =
    (inl (AppErrors.internal "Failed to create product"), db).
Proof.
  intros Hpos Hsmall Hf. unfold createProduct.
  assert (Hgen : ∀ row, p_price row = round_2 (cp_price d) →
            match products_row_checks row with
            | inl _ => (inl (AppErrors.internal "Failed to create product"), db)
            | inr row' =>
                (inr (uuid_generate_v4 (products db), row'),
                 with_products (<[uuid_generate_v4 (products db) := row']> (products db)) db)
            end = (inl (AppErrors.internal "Failed to create product"), db)).
  { intros row Hprice.
    destruct (products_row_checks row) as [e|row'] eqn:Hchk; [done|].
    apply products_row_checks_inr in Hchk as (Hp & _ & Hp' & _).
    rewrite Hp', Hprice, round_2_small in Hp; [lia| |done].
    by apply Qlt_le_weak. }
  destruct f as [[u|]|]; [|done|]; by apply Hgen.
Qed.

Lemma price_below_half_a_cent_is_refused_witness :
  createProduct 4 {| cp_name := "Crumb"; cp_description := None;
                     cp_price := 4 # 1000; cp_stock := 1 |} None shop =
    (inl (AppErrors.internal "Failed to create product"), shop).
Proof.
  apply price_below_half_a_cent_is_refused.
  - reflexivity.
  - reflexivity.
  - discriminate.
Defined.

(** ** Updating a product *)

(** X17: an update that succeeds is of an active product and writes that
    product only: the fields the request leaves out keep their values, the
    price given is stored rounded to cents, the row stays active and keeps
    its creation time, and the stored price and stock satisfy the checks of
    the table. *)
Theorem update_writes_the_named_fields_of_one_product now id d f db id' row db' :
  updateProduct now id d f db = (inr (id', row), db') →
  id' = id ∧
  ∃ old, products db !! id = Some old ∧ p_is_active old = true ∧
    products db' !! id = Some row ∧
    (∀ j, j ≠ id → products db' !! j = products db !! j) ∧
    p_is_active row = true ∧ p_created_at row = p_created_at old ∧
    p_updated_at row = now ∧
    p_price row = from_option round_2 (p_price old) (up_price d) ∧
    p_stock row = default (p_stock old) (up_stock d) ∧
    (up_description d = None → p_description row = p_description old) ∧
    (f = None → p_image_url row = p_image_url old) ∧
    0 < p_price row ∧ 0 ≤ p_stock row.
Proof.
  unfold updateProduct. intros H.
  destruct (getProductById id db) as [e|old] eqn:Hget; [discriminate H|].
  apply getProductById_inr in Hget as (Hold & Hact).
  assert (Hgen : ∀ r,
    match products_row_checks r with
    | inl _ => (inl (AppErrors.internal "Failed to update product"), db)
    | inr row' => (inr (id, row'), with_products (<[id := row']> (products db)) db)
    end = (inr (id', row), db') →
    id' = id ∧ products_row_checks r = inr row ∧
    db' = with_products (<[id := row]> (products db)) db).
  { intros r Hr. destruct (products_row_checks r) as [e|row'] eqn:Hchk; [discriminate Hr|].
    by injection Hr as <- <- <-. }
  destruct f as [[u|]|]; simpl in H; [| discriminate H |];
    apply Hgen in H as (-> & Hchk & ->);
    apply products_row_checks_inr in Hchk
      as (Hp & Hs & Hp' & Hs' & _ & Hd & Hu & Ha & Hc & Hup); simpl in *;
    (split; [done|]); exists old;
    (split_and!;
     first [ done | lia | congruence
           | by rewrite lookup_insert_eq
           | by (intros j Hj; rewrite lookup_insert_ne)
           | by (rewrite Hp'; destruct (up_price d))
           | by (rewrite Hs'; destruct (up_stock d))
           | by (intros Hnone; rewrite Hd, Hnone)
           | by (intros Hnone; rewrite Hu) ]).
Qed.

Lemma update_writes_the_named_fields_of_one_product_witness :
  products (updateProduct 6 1%N {| up_name := None; up_description := None;
                                   up_price := Some (11 # 2); up_stock := None |}
              None shop).2 !! 1%N =
    Some {| p_name := "Espresso"; p_description := None; p_price := 550; p_stock := 10;
            p_image_url := None; p_is_active := true; p_created_at := 0;
            p_updated_at := 6 |}.
Proof.
  destruct (update_writes_the_named_fields_of_one_product 6 1%N
              {| up_name := None; up_description := None;
                 up_price := Some (11 # 2); up_stock := None |} None shop 1%N
              {| p_name := "Espresso"; p_description := None; p_price := 550; p_stock := 10;
                 p_image_url := None; p_is_active := true; p_created_at := 0;
                 p_updated_at := 6 |}
              (updateProduct 6 1%N {| up_name := None; up_description := None;
                                      up_price := Some (11 # 2); up_stock := None |}
                 None shop).2
              ltac:(vm_compute; reflexivity))
    as (_ & old & _ & _ & Hrow & _).
  exact Hrow.
Defined.

(** ** What the schema of a sale accepts *)

Lemma issue_unless_nil ok path msg c : issue_unless ok path msg c = [] ↔ ok = true.
Proof. destruct ok; simpl; split; congruence. Qed.

Lemma name_issues_nil path what s :
  name_issues path what s = [] ↔ (2 ≤ String.length s ≤ 50)%nat.
Proof.
  unfold name_issues. rewrite app_nil, !issue_unless_nil, !Nat.leb_le. done.
Qed.

Lemma Qred_inject_Z (z : Z) : Qred (inject_Z z) = inject_Z z.
Proof.
  unfold Qred, inject_Z.
  pose proof (Z.ggcd_gcd z 1) as Hg. pose proof (Z.ggcd_correct_divisors z 1) as Hd.
  destruct (Z.ggcd z 1) as [g [aa bb]]. simpl in *.
  rewrite Z.gcd_1_r in Hg. subst g. destruct Hd as [Ha Hb].
  rewrite Z.mul_1_l in Ha, Hb. subst aa bb. reflexivity.
Qed.

Lemma quantity_acceptable_issues path n :
  quantity_acceptable n → quantity_issues path n = [].
Proof.
  intros (z & (q & -> & Heq) & Hz). unfold quantity_issues.
  assert (Hred : Qred q = inject_Z z).
  { rewrite (Qred_complete _ _ Heq). apply Qred_inject_Z. }
  unfold Qeq in Heq. simpl in Heq.
  pose proof (Pos2Z.is_pos (Qden q)) as Hd.
  rewrite !app_nil, !issue_unless_nil. split_and!.
  - unfold is_integer. rewrite Hred. done.
  - unfold is_positive. apply Z.ltb_lt. nia.
  - unfold at_most. apply Qle_bool_iff. unfold Qle. simpl. nia.
Qed.

Lemma quantity_issues_nil_iff path n :
  quantity_issues path n = [] ↔ quantity_acceptable n.
Proof. split; [apply quantity_issues_nil | apply quantity_acceptable_issues]. Qed.

Lemma imap_issues_nil {A} (f : nat → A → list zod_issue) (l : list A) :
  mjoin (imap f l) = [] ↔ ∀ i x, l !! i = Some x → f i x = [].
Proof.
  revert f. induction l as [|x l IH]; intros f; simpl.
  - split; [|done]. intros _ i x Hi. done.
  - rewrite app_nil, IH. split.
    + intros [H0 Hrest] [|i] y Hi; simpl in Hi.
      * by injection Hi as <-.
      * by apply Hrest.
    + intros H. split; [by apply (H 0%nat)|].
      intros i y Hi. by apply (H (S i)).
Qed.

Lemma saleItemSchema_issues_nil (is_uuid : string → bool) (raws : list raw_item) :
  mjoin (imap (saleItemSchema_issues is_uuid) raws) = [] ↔
  Forall (λ it, is_uuid (raw_productId it) = true ∧
                quantity_acceptable (raw_quantity it)) raws.
Proof.
  rewrite imap_issues_nil, Forall_lookup. unfold saleItemSchema_issues.
  split; intros H i x Hi; specialize (H i x Hi).
  - apply app_nil in H as [Hu Hq]. apply issue_unless_nil in Hu.
    apply quantity_issues_nil in Hq. done.
  - destruct H as [Hu Hq]. apply app_nil. split.
    + by apply issue_unless_nil.
    + by apply quantity_acceptable_issues.
Qed.

(** X18: the schema of [POST /api/sales] raises no issue exactly when both
    names have 2 to 50 characters, the e-mail passes the e-mail check, there
    are 1 to 50 items, and every item has an id that passes the UUID check
    and a quantity that is a whole number from 1 to 100. *)
Theorem createSaleSchema_accepts_exactly (is_uuid is_email : string → bool) (b : raw_sale) :
  createSaleSchema_issues is_uuid is_email b = [] ↔
  (2 ≤ String.length (raw_firstName b) ≤ 50)%nat ∧
  (2 ≤ String.length (raw_lastName b) ≤ 50)%nat ∧
  is_email (raw_email b) = true ∧
  (1 ≤ length (raw_items b) ≤ 50)%nat ∧
  Forall (λ it, is_uuid (raw_productId it) = true ∧
                quantity_acceptable (raw_quantity it)) (raw_items b).
Proof.
  unfold createSaleSchema_issues.
  rewrite !app_nil, !name_issues_nil, !issue_unless_nil, !Nat.leb_le,
    saleItemSchema_issues_nil.
  tauto.
Qed.

(** ** The answers of the handlers of the sales route *)

Lemma integer_value_acceptable n :
  quantity_acceptable n → 0 < integer_value n ≤ 100.
Proof.
  intros (z & (q & -> & Heq) & Hz). simpl.
  rewrite (Qred_complete _ _ Heq), Qred_inject_Z. done.
Qed.

(** The items the schema has accepted go through to the function unless the
    store does not read one of the ids as a UUID. *)
Lemma items_in_accepted (uuid_in : string → option uuid) (raws : list raw_item) :
  Forall (λ it, quantity_acceptable (raw_quantity it)) raws →
  items_in uuid_in
    (map (λ it, {| productId := raw_productId it;
                   item_quantity := integer_value (raw_quantity it) |}) raws) = None →
  Exists (λ it, uuid_in (raw_productId it) = None) raws.
Proof.
  induction 1 as [|it raws Hq _ IH]; simpl; [done|].
  destruct (uuid_in (raw_productId it)) as [u|] eqn:Hu; [|intros _; by left].
  apply integer_value_acceptable in Hq.
  unfold int4.
  destruct (Z.leb_spec (- 2 ^ 31) (integer_value (raw_quantity it))); [|lia].
  destruct (Z.ltb_spec (integer_value (raw_quantity it)) (2 ^ 31)); [|lia].
  simpl.
  destruct (items_in uuid_in _) as [rest|] eqn:Hrest; [done|].
  intros _. right. by apply IH.
Qed.

(** X19: for a request that reaches the handlers of the route with a parsed
    body (what the application puts in front of the route, the body parser
    and the rate limiter, is not part of this), the chain
    [validate(createSaleSchema)], [createSale] of the controller and
    [errorMiddleware] answers 422, 500, 400 or 201.  422: the schema raised
    an issue, nothing was sent to the store and the store is as it was.
    500: the schema accepted the body but the store was not reached, or did
    not read one of the ids as a UUID; no rule of the business gives a 500.
    400: [process_sale] returned a failure; products, sales and sale items
    are as they were.  201: the sale is stored under the id returned, which
    is new, with the total and the customer returned. *)
Theorem post_sales_answers (is_uuid is_email : string → bool)
    (uuid_in : string → option uuid) (t : transport) (now : timestamp)
    (b : raw_sale) (db : database) :
  (status (post_sales is_uuid is_email uuid_in t now b db).1.1 = 422 ∧
   createSaleSchema_issues is_uuid is_email b ≠ [] ∧
   (post_sales is_uuid is_email uuid_in t now b db).1.2 = db ∧
   (post_sales is_uuid is_email uuid_in t now b db).2 = []) ∨
  (status (post_sales is_uuid is_email uuid_in t now b db).1.1 = 500 ∧
   createSaleSchema_issues is_uuid is_email b = [] ∧
   (t = Unreachable ∨ Exists (λ it, uuid_in (raw_productId it) = None) (raw_items b))) ∨
  (status (post_sales is_uuid is_email uuid_in t now b db).1.1 = 400 ∧
   createSaleSchema_issues is_uuid is_email b = [] ∧
   products (post_sales is_uuid is_email uuid_in t now b db).1.2 = products db ∧
   sales (post_sales is_uuid is_email uuid_in t now b db).1.2 = sales db ∧
   sale_items (post_sales is_uuid is_email uuid_in t now b db).1.2 = sale_items db) ∨
  (status (post_sales is_uuid is_email uuid_in t now b db).1.1 = 201 ∧
   createSaleSchema_issues is_uuid is_email b = [] ∧
   ∃ result row,
     body (post_sales is_uuid is_email uuid_in t now b db).1.1 =
       SuccessBody result "Sale created successfully" ∧
     sales db !! saleId result = None ∧
     sales (post_sales is_uuid is_email uuid_in t now b db).1.2 !! saleId result =
       Some row ∧
     s_total row = total result ∧ s_customer_id row = customerId result).
Proof.
  unfold post_sales, validate, createSaleSchema.
  destruct (createSaleSchema_issues is_uuid is_email b) as [|i0 issues] eqn:Hissues.
  2: { left. simpl. split_and!; done. }
  right.
  assert (Hitems : Forall (λ it, is_uuid (raw_productId it) = true ∧
                                quantity_acceptable (raw_quantity it)) (raw_items b)).
  { apply saleItemSchema_issues_nil. unfold createSaleSchema_issues in Hissues.
    repeat (apply app_nil in Hissues as [_ Hissues]). exact Hissues. }
  unfold createSale, supabase_rpc. simpl.
  destruct t; [|left; simpl; split_and!; [done|done|by left]].
  destruct (items_in uuid_in _) as [its|] eqn:Hits.
  2: { left. simpl. split_and!; [done|done|]. right.
       eapply items_in_accepted; [|exact Hits].
       eapply Forall_impl; [exact Hitems|]. by intros it [_ Hq]. }
  right.
  pose proof (process_sale_outcome now (raw_firstName b) (raw_lastName b) (raw_email b)
                its db) as Ho.
  destruct (process_sale now (raw_firstName b) (raw_lastName b) (raw_email b) its db)
    as [res db'] eqn:Hps.
  destruct res as [sid cid v|msg]; simpl in *.
  - right. split_and!; [done|done|].
    destruct (process_sale_success _ _ _ _ _ _ _ _ _ _ Hps)
      as (db1 & new & _ & _ & _ & Hsid & Hs & _).
    eexists _, _. split; [reflexivity|]. simpl.
    split_and!.
    + rewrite Hsid. apply uuid_generate_v4_fresh.
    + rewrite Hs. apply lookup_insert_eq.
    + done.
    + done.
  - left. split_and!; [done|done| | |];
      (inversion Ho as [e He|cid db1 message Hres Hval|]; subst; [done|];
       by destruct (resolve_customer_frame _ _ _ _ _ _ _ Hres) as (? & ? & ? & _)).
Qed.

(** ** A quantity that is not positive *)

(** X20: the checks of step 2 let a quantity of zero or less through (no
    stock is below it); the insert of the sale item then violates
    [CHECK (quantity > 0)], and the handler returns the generic failure with
    the store as it was: the customer of step 1 is undone too. *)
Theorem nonpositive_quantity_fails_in_the_loop now first last email it rest db cid db1 p :
  resolve_customer now first last email db = inr (cid, db1) →
  validate_items (products db) (it :: rest) = None →
  products db !! product_id it = Some p →
  quantity it ≤ 0 → Z.abs (p_price p * quantity it) < 10 ^ 10 →
  process_sale now first last email (it :: rest) db =
    (Failure ("Transaction failed: " +:+
              sqlerrm (check_violation "sale_items" "sale_items_quantity_check")), db).
Proof.
  intros Hres Hval Hp Hq Hsmall.
  destruct (resolve_customer_frame _ _ _ _ _ _ _ Hres) as (Hps & Hs & Hsi & _ & Hcid).
  unfold process_sale, process_sale_block. rewrite Hres.
  remember (it :: rest) as items eqn:Hitems. simpl.
  rewrite Hps, Hval. subst items. unfold insert_sale. simpl.
  rewrite bool_decide_eq_true_2 by done. simpl.
  unfold process_item. simpl. rewrite Hps, Hp. unfold decimal_10_2.
  destruct (Z.ltb_spec (Z.abs (p_price p * quantity it)) (10 ^ 10)); [|lia].
  simpl.
  destruct (Z.ltb_spec (Z.abs (0 + p_price p * quantity it)) (10 ^ 10)); [|lia].
  simpl.
  destruct (Z.ltb_spec 0 (quantity it)); [lia|].
  reflexivity.
Qed.

Lemma nonpositive_quantity_fails_in_the_loop_witness :
  validate_items (products shop) [line 1 0] = None ∧
  process_sale 5 "Zoe" "Kim" "z@x.com" [line 1 0] shop =
    (Failure ("Transaction failed: " +:+
              sqlerrm (check_violation "sale_items" "sale_items_quantity_check")), shop).
Proof.
  assert (Hres : resolve_customer 5 "Zoe" "Kim" "z@x.com" shop =
            inr (2%N, with_customers
                        (<[2%N := {| c_first_name := "Zoe"; c_last_name := "Kim";
                                     c_email := "z@x.com";
                                     c_created_at := 5; c_updated_at := 5 |}]>
                           (customers shop)) shop)).
  { vm_compute. reflexivity. }
  split; [reflexivity|].
  apply (nonpositive_quantity_fails_in_the_loop 5 "Zoe" "Kim" "z@x.com" (line 1 0) [] shop
           _ _ espresso Hres eq_refl eq_refl).
  - simpl. lia.
  - simpl. lia.
Defined.

(** ** A name too long for its column *)

Lemma varchar_too_long (n : nat) (s : string) :
  (n < String.length s)%nat →
  all_spaces (substring n (String.length s - n) s) = false →
  varchar n s = raise (string_data_right_truncation n).
Proof.
  intros Hlen Hexcess. unfold varchar.
  destruct (Nat.leb_spec (String.length s) n); [lia|].
  by rewrite Hexcess.
Qed.

(** X21: a first name of more than 50 characters, the excess not being
    spaces only, makes the customer step raise, for a new customer and for a
    known one alike: the call returns the generic failure that names the
    column type and leaves the store as it was, whatever the items are (the
    lines are not looked at). *)
Theorem overlong_first_name_fails now first last email items db :
  (50 < String.length first)%nat →
  all_spaces (substring 50 (String.length first - 50) first) = false →
  process_sale now first last email items db =
    (Failure "Transaction failed: value too long for type character varying(50)", db).
Proof.
  intros Hlen Hexcess.
  unfold process_sale, process_sale_block, resolve_customer.
  rewrite (varchar_too_long 50 first Hlen Hexcess).
  destruct (select_customer_by_email email (customers db)); reflexivity.
Qed.

Lemma overlong_first_name_fails_witness :
  process_sale 5 sixty_letters "Lee" "a@x.com" [line 1 1] shop =
    (Failure "Transaction failed: value too long for type character varying(50)", shop).
Proof.
  apply overlong_first_name_fails.
  - vm_compute. lia.
  - reflexivity.
Defined.

(** ** The totals stored for a customer *)

Lemma sales_total_of_customer_insert (cid i : uuid) (row : sale_row) (rows : gmap uuid sale_row) :
  rows !! i = None →
  sales_total_of_customer cid (<[i := row]> rows) =
    (if decide (s_customer_id row = cid) then s_total row else 0) + sales_total_of_customer cid rows.
Proof.
  intros Hi. unfold sales_total_of_customer.
  rewrite map_fold_insert_L; [| |done].
  - destruct (decide (s_customer_id row = cid)); lia.
  - intros j1 j2 z1 z2 y _ _ _.
    destruct (decide (s_customer_id z1 = cid)), (decide (s_customer_id z2 = cid)); lia.
Qed.

(** X22: a call that commits adds the total it returns to the exact sum of
    the totals stored for the customer it returns, and nothing to that of
    any other customer; a call that does not commit changes the sum of no
    customer. *)
Theorem sale_is_booked_to_its_customer now first last email items db c :
  sales_total_of_customer c (sales (process_sale now first last email items db).2) =
    sales_total_of_customer c (sales db) +
    match (process_sale now first last email items db).1 with
    | Success _ cid total => if decide (cid = c) then total else 0
    | Failure _ => 0
    end.
Proof.
  destruct (process_sale_outcome now first last email items db)
    as [e _|cid db1 message Hres _|cid db1 sid db2 db3 total db4 Hres _ Hins Hitems Hupd].
  - lia.
  - destruct (resolve_customer_frame _ _ _ _ _ _ _ Hres) as (_ & -> & _). lia.
  - destruct (resolve_customer_frame _ _ _ _ _ _ _ Hres) as (_ & Hs1 & _).
    apply insert_sale_inr in Hins as (Hsid & _ & _ & _ & _ & Hs2).
    destruct (process_items_frame _ _ _ _ _ _ _ Hitems) as (_ & Hs3 & _).
    apply update_sale_total_inr in Hupd as (_ & _ & _ & _ & Hs4).
    rewrite Hs4, Hs3, Hs2, alter_insert_eq, sales_total_of_customer_insert, Hs1.
    + simpl. lia.
    + rewrite Hsid. apply uuid_generate_v4_fresh.
Qed.
